(** * A shallow embedding of the capabilities controller (index.ts)

    The controller keeps, per origin, a list of capabilities and decides for
    every JSON-RPC request whether it is passed through, answered by an
    internal method, or handed to a restricted method behind its caveats.

    Conventions of the embedding:
    - a JS object used as a dictionary is a finite map ([gmap]) when only
      lookup, insertion and deletion matter, and an association list in
      property order when the source enumerates it ([Object.keys], [for in]);
      where the source reads [o[k]] with a key that comes from a caller, the
      members every plain object inherits from [Object.prototype] are
      modelled too ([inherited]); writing under the key [__proto__] is
      outside the embedding;
    - the controller state ([this.state]) is threaded explicitly; the entry
      of an origin is a value of its own, as the controller creates them
      (one new object per origin in [getDomainSettings]): an entry object
      that a host stores under two origins, and the in-place writes that
      would then show under both, are outside the embedding;
    - an exception is the [Abrupt] case of a completion;
    - [uuid()] and [Date.now()] are oracles indexed by the number of draws
      made so far. *)

From stdpp Require Import gmap strings list fin_maps pretty.
From Stdlib Require Import ZArith Ascii Permutation.

Open Scope string_scope.

(** ** JavaScript values

    Request parameters are typed [any] in the source: the validation code is
    embedded over untyped values. *)

#[warnings="-register-all"]
Inductive JsValue : Type :=
| JUndefined
| JNull
| JBool (b : bool)
| JNum (n : Z)
| JStr (s : string)
| JArr (elems : list JsValue)
| JObj (props : list (string * JsValue)).

Definition JsValue_eq_dec : forall a b : JsValue, {a = b} + {a <> b}.
Proof.
  fix IH 1. decide equality.
  - apply bool_dec.
  - apply Z.eq_dec.
  - apply String.string_dec.
  - apply (List.list_eq_dec IH).
  - apply List.list_eq_dec. decide equality. apply String.string_dec.
Defined.

#[global] Instance JsValue_eq_decision : EqDecision JsValue := JsValue_eq_dec.

Inductive JsError : Type :=
| TypeError (message : string).

(** What evaluating a piece of code yields: a value, or a thrown exception. *)
Inductive Completion (A : Type) : Type :=
| Normal (a : A)
| Abrupt (e : JsError).

Arguments Normal {A} a.
Arguments Abrupt {A} e.

#[global] Instance Completion_ret : MRet Completion := fun A a => Normal a.

#[global] Instance Completion_bind : MBind Completion := fun A B k c =>
  match c with
  | Normal a => k a
  | Abrupt e => Abrupt e
  end.

(** [!v] is false exactly on the truthy values. *)
Definition truthy (v : JsValue) : bool :=
  match v with
  | JUndefined | JNull => false
  | JBool b => b
  | JNum n => negb (n =? 0)%Z
  | JStr s => negb (String.eqb s "")
  | JArr _ | JObj _ => true
  end.

(** [typeof v === 'object'] *)
Definition typeof_object (v : JsValue) : bool :=
  match v with
  | JNull | JArr _ | JObj _ => true
  | _ => false
  end.

(** [Array.isArray(v)] *)
Definition isArray (v : JsValue) : bool :=
  match v with
  | JArr _ => true
  | _ => false
  end.

Fixpoint assoc {A : Type} (k : string) (ps : list (string * A)) : option A :=
  match ps with
  | [] => None
  | (k', v) :: rest => if String.eqb k' k then Some v else assoc k rest
  end.

(** [o[k] = v] on an object: an existing property keeps its place, a new one
    is appended. *)
Fixpoint assoc_set {A : Type} (k : string) (v : A) (ps : list (string * A))
  : list (string * A) :=
  match ps with
  | [] => [(k, v)]
  | (k', v') :: rest =>
      if String.eqb k' k then (k, v) :: rest else (k', v') :: assoc_set k v rest
  end.

(** [v.k] for a value that is neither [null] nor [undefined]. *)
Definition get_prop (v : JsValue) (k : string) : JsValue :=
  match v with
  | JObj ps => default JUndefined (assoc k ps)
  | JArr xs => if String.eqb k "length" then JNum (Z.of_nat (length xs)) else JUndefined
  | JStr s => if String.eqb k "length" then JNum (Z.of_nat (String.length s)) else JUndefined
  | _ => JUndefined
  end.

(** [v.k] in general: reading a property of [null] or [undefined] throws. *)
Definition js_member (v : JsValue) (k : string) : Completion JsValue :=
  match v with
  | JUndefined | JNull => Abrupt (TypeError "cannot read property of null or undefined")
  | _ => Normal (get_prop v k)
  end.

(** [v[i]] for a value that is neither [null] nor [undefined]. *)
Definition js_index (v : JsValue) (i : nat) : JsValue :=
  match v with
  | JArr xs => nth i xs JUndefined
  | JObj ps => default JUndefined (assoc (pretty i) ps)
  | JStr s =>
      match String.get i s with
      | Some c => JStr (String c EmptyString)
      | None => JUndefined
      end
  | _ => JUndefined
  end.

(** [Object.keys(v)] where [v] passed [typeof v === 'object'] and is no
    array: it throws on [null]. *)
Definition object_keys (v : JsValue) : Completion (list string) :=
  match v with
  | JUndefined | JNull => Abrupt (TypeError "cannot convert undefined or null to object")
  | JObj ps => Normal (ps.*1)
  | JArr xs => Normal (pretty <$> seq 0 (length xs))
  | JStr s => Normal (pretty <$> seq 0 (String.length s))
  | _ => Normal []
  end.

(** ** Plain objects and [Object.prototype]

    [o[k]] on a plain object finds the own property [k] and, failing that, a
    member of [Object.prototype]. All of these members are truthy: eleven are
    functions, and [__proto__] reads as [Object.prototype] itself. None of
    them has a property [permissions] or [caveats]. *)
Definition object_prototype_names : list string :=
  ["constructor"; "hasOwnProperty"; "isPrototypeOf"; "propertyIsEnumerable";
   "toLocaleString"; "toString"; "valueOf";
   "__defineGetter__"; "__defineSetter__"; "__lookupGetter__"; "__lookupSetter__";
   "__proto__"].

Definition inherited (k : string) : bool :=
  bool_decide (k ∈ object_prototype_names).

(** [===] and [!==] compare primitives by value, arrays and objects by
    identity. *)
Definition is_primitive (v : JsValue) : bool :=
  match v with
  | JArr _ | JObj _ => false
  | _ => true
  end.

(** ** Strings: [indexOf] and [split] on a single character *)

(** [s.indexOf(c)]; [None] stands for [-1]. *)
Fixpoint indexOf (c : ascii) (s : string) : option nat :=
  match s with
  | EmptyString => None
  | String a s' => if Ascii.eqb a c then Some 0 else S <$> indexOf c s'
  end.

(** [s.split(c)] *)
Fixpoint split (c : ascii) (s : string) : list string :=
  match s with
  | EmptyString => [EmptyString]
  | String a s' =>
      if Ascii.eqb a c then EmptyString :: split c s'
      else match split c s' with
           | seg :: rest => String a seg :: rest
           | [] => [String a EmptyString]
           end
  end.

Definition underscore : ascii := "_"%char.

(** ** Data model *)

(** [IOcapLdCaveat]: a typed constraint with an opaque payload. *)
Record IOcapLdCaveat : Type := {
  caveat_type : string;
  caveat_value : JsValue;
}.

(** [IOcapLdCapability], as the [Capability] class lays it out. *)
Record IOcapLdCapability : Type := {
  context : list string;
  parentCapability : string;
  caveats : option (list IOcapLdCaveat);
  cap_id : string;
  date : Z;
  invoker : string;
}.

(** [RpcCapDomainEntry] *)
Record RpcCapDomainEntry : Type := {
  permissions : list IOcapLdCapability;
}.

(** [IOriginMetadata]: [meta_id] is [JUndefined] while no id is assigned; an
    id merged in from the request parameters is whatever value the caller
    sent. *)
Record IOriginMetadata : Type := {
  origin : string;
  meta_id : JsValue;
}.

(** One entry of [IRequestedPermissions]. *)
Record IRequestedPermission : Type := {
  requested_caveats : option (list IOcapLdCaveat);
}.

(** [IRequestedPermissions]: method name to descriptor, in property order. *)
Definition IRequestedPermissions : Type := list (string * IRequestedPermission).

(** [IPermissionsRequest] *)
Record IPermissionsRequest : Type := {
  pr_origin : string;
  pr_metadata : IOriginMetadata;
  pr_permissions : IRequestedPermissions;
}.

(** [CapabilitiesState]. [domains] is [None] while the state container has
    no [domains] key; [draws] counts the calls made to [uuid()] and
    [Date.now()] so far. *)
Record CapabilitiesState : Type := {
  domains : option (gmap string RpcCapDomainEntry);
  permissionsRequests : list IPermissionsRequest;
  draws : nat;
}.

Record JsonRpcRequest : Type := {
  req_method : string;
  params : JsValue;
}.

(** Modelled from the spec: the error taxonomy of ./src/errors, which is not
    part of the sources at hand. [GenericError] is the [{message, code: 1}]
    object built in [providerMiddlewareFunction]; [Rejection] is the reason
    an approval promise was rejected with. *)
Inductive RpcError : Type :=
| unauthorized (req : JsonRpcRequest)
| invalidReq (req : option JsonRpcRequest)
| USER_REJECTED_ERROR
| METHOD_NOT_FOUND
| GenericError (message : string)
| Rejection (reason : JsValue).

Record JsonRpcResponse : Type := {
  result : option (list IOcapLdCapability);
  error : option RpcError;
}.

(** A middleware function of the host; its body is opaque. *)
Inductive JsFunction : Type :=
| Fn (tag : nat).

(** One entry of [RestrictedMethodMap]; [rm_method] is [None] when the
    [method] field is not a function. *)
Record RestrictedMethod : Type := {
  description : string;
  rm_method : option JsFunction;
}.

(** What a lookup in the private [caveats] table can find and call with a
    result: its two entries, and two members of [Object.prototype].
    [Object(caveat)] returns the caveat itself and [Object.prototype.toString]
    called without a receiver returns a string: neither result is a
    function. *)
Inductive ICaveatFunctionGenerator : Type :=
| filterParams
| filterResponse
| ObjectConstructor
| ObjectToString.

(** What the call found under the type of a serialized caveat returned, and
    [engine.push] took as a stage. The two generators live in ./src/caveats,
    which is not part of the sources at hand: calling one is taken to return
    its middleware. *)
Record ICaveatFunction : Type := {
  made_by : ICaveatFunctionGenerator;
  made_from : IOcapLdCaveat;
}.

(** How a handler gives up control. *)
Inductive Control : Type :=
| CallNext
| CallEnd (err : option RpcError)
| RunRestricted (pipeline : list ICaveatFunction) (methodKey : string) (target : JsFunction)
| AwaitApproval (pending : IPermissionsRequest)
| Throws (e : JsError)
| OutsideTypes.

(** State and response after a handler ran, and how it ended. [OutsideTypes]
    is no way the source ends: it marks a request payload that is no
    [IRequestedPermissions], which the embedding does not follow further;
    the state and the response of such an effect are those reached when the
    embedding stopped, not what the source leaves behind. *)
Record Effect : Type := {
  state_after : CapabilitiesState;
  res_after : JsonRpcResponse;
  control : Control;
}.

(** How the user-approval promise settles. *)
Inductive Approval : Type :=
| Resolved (approved : IRequestedPermissions)
| Rejected (reason : JsValue).

Definition set_error (res : JsonRpcResponse) (e : RpcError) : JsonRpcResponse :=
  {| result := result res; error := Some e |}.

Definition set_result (res : JsonRpcResponse) (r : list IOcapLdCapability) : JsonRpcResponse :=
  {| result := Some r; error := error res |}.

Definition set_domains (st : CapabilitiesState) (ds : gmap string RpcCapDomainEntry)
  : CapabilitiesState :=
  {| domains := Some ds; permissionsRequests := permissionsRequests st; draws := draws st |}.

Definition set_requests (st : CapabilitiesState) (rs : list IPermissionsRequest)
  : CapabilitiesState :=
  {| domains := domains st; permissionsRequests := rs; draws := draws st |}.

Definition drawn (st : CapabilitiesState) : CapabilitiesState :=
  {| domains := domains st; permissionsRequests := permissionsRequests st; draws := S (draws st) |}.

(** ** Caveat helpers (./src/caveats) *)

Definition quote : string := String (ascii_of_nat 34) EmptyString.

(** A canonical serialization of a value, used only to order caveats. *)
Fixpoint serialize (v : JsValue) : string :=
  match v with
  | JUndefined => "undefined"
  | JNull => "null"
  | JBool b => if b then "true" else "false"
  | JNum n => pretty n
  | JStr s => quote +:+ s +:+ quote
  | JArr xs =>
      "[" +:+ (fix items (l : list JsValue) : string :=
                 match l with
                 | [] => ""
                 | x :: rest => serialize x +:+ "," +:+ items rest
                 end) xs +:+ "]"
  | JObj ps =>
      "{" +:+ (fix fields (l : list (string * JsValue)) : string :=
                 match l with
                 | [] => ""
                 | (k, x) :: rest => quote +:+ k +:+ quote +:+ ":" +:+ serialize x +:+ "," +:+ fields rest
                 end) ps +:+ "}"
  end.

(** Lexicographic order on (type, serialized value). *)
Definition key_leb (a b : string * string) : bool :=
  match String.compare a.1 b.1 with
  | Lt => true
  | Gt => false
  | Eq => String.leb a.2 b.2
  end.

Fixpoint insert_by {A : Type} (key : A -> string * string) (x : A) (l : list A) : list A :=
  match l with
  | [] => [x]
  | y :: rest => if key_leb (key x) (key y) then x :: l else y :: insert_by key x rest
  end.

Definition sort_by {A : Type} (key : A -> string * string) (l : list A) : list A :=
  foldr (insert_by key) [] l.

Definition caveat_key (c : IOcapLdCaveat) : string * string :=
  (caveat_type c, serialize (caveat_value c)).

(** Modelled from the spec: [sortCaveats] of ./src/caveats, which is not part
    of the sources at hand: a stable sort, ascending by [type] and within
    equal [type] by the serialized [value]. *)
Definition sortCaveats (cs : list IOcapLdCaveat) : list IOcapLdCaveat :=
  sort_by caveat_key cs.

Definition js_caveat_key (c : JsValue) : string * string :=
  (match get_prop c "type" with JStr t => t | o => serialize o end,
   serialize (get_prop c "value")).

(** [sortCaveats] as the request handler calls it, on the untyped payload:
    anything that is no array is left alone. *)
Definition sortCaveats_js (v : JsValue) : JsValue :=
  match v with
  | JArr cs => JArr (sort_by js_caveat_key cs)
  | _ => v
  end.

(** Modelled from the spec: [caveatEqual] of ./src/caveats, which is not part
    of the sources at hand: equal [type] and structurally equal [value]. *)
Definition caveatEqual (a b : IOcapLdCaveat) : bool :=
  bool_decide (caveat_type a = caveat_type b) && bool_decide (caveat_value a = caveat_value b).

(** Reading a caveat off the untyped payload. *)
Definition caveat_of_js (v : JsValue) : option IOcapLdCaveat :=
  match v with
  | JObj ps =>
      match assoc "type" ps with
      | Some (JStr t) => Some {| caveat_type := t; caveat_value := default JUndefined (assoc "value" ps) |}
      | _ => None
      end
  | _ => None
  end.

(** Reading one permission descriptor: a falsy [caveats] counts as absent
    wherever the source tests it; a truthy one has to be an array of
    caveats. *)
Definition descriptor_of_js (d : JsValue) : option IRequestedPermission :=
  match get_prop d "caveats" with
  | JArr cs => (fun l => {| requested_caveats := Some l |}) <$> mapM caveat_of_js cs
  | c => if truthy c then None else Some {| requested_caveats := None |}
  end.

(** The view of [req.params[0]] as [IRequestedPermissions]. *)
Definition asRequestedPermissions (v : JsValue) : option IRequestedPermissions :=
  match v with
  | JObj ps => mapM (fun '(k, d) => (fun r => (k, r)) <$> descriptor_of_js d) ps
  | _ => None
  end.

(** ** The controller *)

Section CapabilitiesController.

(** The fields set by the constructor from its [config]. *)
Variable safeMethods : list string.
Variable restrictedMethods : gmap string RestrictedMethod.
Variable methodPrefix : string.

(** The [n]-th value [uuid()] returns, and the [n]-th reading of
    [Date.now()]. *)
Variable uuid : nat -> string.
Variable now : nat -> Z.

(** [new Capability({ method, caveats, invoker })] at draw [n]. *)
Definition Capability (n : nat) (method : string)
    (cs : option (list IOcapLdCaveat)) (inv : string) : IOcapLdCapability :=
  {| context := ["https://github.com/MetaMask/json-rpc-capabilities-middleware"];
     parentCapability := method;
     caveats := cs;
     cap_id := uuid n;
     date := now n;
     invoker := inv |}.

(** [Object.keys(this.restrictedMethods).includes(m)] *)
Definition managedMethods_includes (m : string) : bool :=
  match restrictedMethods !! m with
  | Some _ => true
  | None => false
  end.

(** The [while] loop of [getMethodKeyFor]: [segments.shift()] is appended to
    [managed] with a trailing underscore until [managed] is a key or the
    segments run out. *)
Fixpoint shift_segments (segments : list string) (managed : string) : string :=
  match segments with
  | [] => managed
  | seg :: rest =>
      if managedMethods_includes managed then managed
      else shift_segments rest (managed +:+ seg +:+ "_")
  end.

Definition getMethodKeyFor (method : string) : string :=
  if managedMethods_includes method then method
  else match indexOf underscore method with
       | Some (S _) =>
           let managed := shift_segments (split underscore method) "" in
           if managedMethods_includes managed then managed else ""
       | _ => if managedMethods_includes method then method else ""
       end.

(** The list [getPermissionsForDomain] returns. For an origin that is not in
    the registry and names a member of [Object.prototype] the source returns
    [undefined] instead (see [getPermissionsForDomain_js]); this function
    reads [[]] there. *)
Definition getPermissionsForDomain (st : CapabilitiesState) (domain : string)
  : list IOcapLdCapability :=
  match default ∅ (domains st) !! domain with
  | Some entry => permissions entry
  | None => []
  end.

(** [getPermissionsForDomain] with [undefined] told apart ([None]):
    [domains[domain]] is truthy for an entry of the registry and for an
    inherited member, and an inherited member has no [permissions]. *)
Definition getPermissionsForDomain_js (st : CapabilitiesState) (domain : string)
  : option (list IOcapLdCapability) :=
  match default ∅ (domains st) !! domain with
  | Some entry => Some (permissions entry)
  | None => if inherited domain then None else Some []
  end.

(** The capability [getPermission] returns when it returns. *)
Definition getPermission (st : CapabilitiesState) (domain method : string)
  : option IOcapLdCapability :=
  head (filter (fun p => parentCapability p = method) (getPermissionsForDomain st domain)).

(** [getPermission] as a whole: [.filter] on [undefined] throws. The text of
    a [TypeError] is the engine's; the one here stands for it. *)
Definition getPermission_js (st : CapabilitiesState) (domain method : string)
  : Completion (option IOcapLdCapability) :=
  match getPermissionsForDomain_js st domain with
  | None => Abrupt (TypeError "Cannot read property 'filter' of undefined")
  | Some perms => Normal (head (filter (fun p => parentCapability p = method) perms))
  end.

(** The [reduce] of [hasPermissions]: the capabilities of a domain keyed by
    method name, a later one overwriting an earlier one. These are the own
    properties of the table; [hasPermissions] reads it with [existing[k]],
    which finds the inherited members as well. *)
Definition existing_by_method (perms : list IOcapLdCapability)
  : gmap string IOcapLdCapability :=
  foldl (fun acc perm => <[parentCapability perm := perm]> acc) ∅ perms.

(** One round of the second loop of [hasPermissions]: [true] stands for
    going on with the next key, [false] for [return false]. *)
Definition caveats_pass (requestedCaveats existingCaveats : option (list IOcapLdCaveat)) : bool :=
  match requestedCaveats, existingCaveats with
  | None, None => true
  | Some rc, Some ec =>
      if negb (Nat.eqb (length rc) (length ec)) then false
      else forallb (fun r => existsb (fun e => caveatEqual r e) ec) rc
  | _, _ => false
  end.

(** What [hasPermissions] returns when it returns. [existing[k]] is truthy
    for a capability of the table and for an inherited member;
    [existing[k].caveats] is the caveats of the capability, and [undefined]
    on an inherited member. *)
Definition hasPermissions (st : CapabilitiesState) (domain : string)
    (requests : IRequestedPermissions) : bool :=
  let existing := existing_by_method (getPermissionsForDomain st domain) in
  let requestKeys := requests.*1 in
  if negb (forallb (fun k => bool_decide (is_Some (existing !! k)) || inherited k) requestKeys)
  then false
  else forallb (fun k =>
         match assoc k requests with
         | Some r => caveats_pass (requested_caveats r) (existing !! k ≫= caveats)
         | None => false
         end) requestKeys.

(** [hasPermissions] as a whole: [.reduce] on [undefined] throws. *)
Definition hasPermissions_js (st : CapabilitiesState) (domain : string)
    (requests : IRequestedPermissions) : Completion bool :=
  match getPermissionsForDomain_js st domain with
  | None => Abrupt (TypeError "Cannot read property 'reduce' of undefined")
  | Some _ => Normal (hasPermissions st domain requests)
  end.

Definition getPermissionsRequests (st : CapabilitiesState) : list IPermissionsRequest :=
  permissionsRequests st.

Definition setPermissionsRequests (st : CapabilitiesState) (rs : list IPermissionsRequest)
  : CapabilitiesState :=
  set_requests st rs.

(** [oldReq.metadata.id !== requestId], on values compared by structure:
    exact whenever [requestId] is a primitive (a string, as [uuid()] returns
    and the declared type says). An id that is an array or an object is
    compared by identity in the source; the request that is being settled
    carries the very id it is removed by. *)
Definition removePermissionsRequest (st : CapabilitiesState) (requestId : JsValue)
  : CapabilitiesState :=
  setPermissionsRequests st
    (filter (fun oldReq => meta_id (pr_metadata oldReq) ≠ requestId) (getPermissionsRequests st)).

Definition getDomains (st : CapabilitiesState) : gmap string RpcCapDomainEntry :=
  default ∅ (domains st).

Definition setDomains (st : CapabilitiesState) (ds : gmap string RpcCapDomainEntry)
  : CapabilitiesState :=
  set_domains st ds.

(** [getDomainSettings] writes the new entry into the object [getDomains]
    returned: that object is the state's own registry when there is one, and
    a temporary otherwise. *)
Definition getDomainSettings (st : CapabilitiesState) (domain : string)
  : RpcCapDomainEntry * CapabilitiesState :=
  match getDomains st !! domain with
  | None =>
      let newDomain := {| permissions := [] |} in
      (newDomain,
       match domains st with
       | Some ds => set_domains st (<[domain := newDomain]> ds)
       | None => st
       end)
  | Some entry => (entry, st)
  end.

(** The entry [getDomainSettings] returns is never [undefined]. *)
Definition getOrCreateDomainSettings (st : CapabilitiesState) (domain : string)
  : RpcCapDomainEntry * CapabilitiesState :=
  getDomainSettings st domain.

Definition setDomain (st : CapabilitiesState) (domain : string)
    (domainSettings : RpcCapDomainEntry) : CapabilitiesState :=
  let ds := getDomains st in
  setDomains st
    (if decide (0 < length (permissions domainSettings))
     then <[domain := domainSettings]> ds
     else delete domain ds).

(** The [for in] loop of [addPermissionsFor]: one [new Capability] per entry,
    pushed in property order. *)
Fixpoint push_new (domainName : string) (news : list (string * IOcapLdCapability))
    (acc : list IOcapLdCapability) (st : CapabilitiesState)
  : list IOcapLdCapability * CapabilitiesState :=
  match news with
  | [] => (acc, st)
  | (_, newPerm) :: rest =>
      push_new domainName rest
        (acc ++ [Capability (draws st) (parentCapability newPerm) (caveats newPerm) domainName])
        (drawn st)
  end.

Definition addPermissionsFor (st : CapabilitiesState) (domainName : string)
    (newPermissions : list (string * IOcapLdCapability)) : CapabilitiesState :=
  let '(domain, st0) := getOrCreateDomainSettings st domainName in
  let newKeys := newPermissions.*1 in
  let kept := filter (fun oldPerm => parentCapability oldPerm ∉ newKeys) (permissions domain) in
  let '(perms, st1) := push_new domainName newPermissions kept st0 in
  setDomain st1 domainName {| permissions := perms |}.

Definition removePermissionsFor (st : CapabilitiesState) (domainName : string)
    (permissionsToRemove : list IOcapLdCapability) : CapabilitiesState :=
  let '(domain, st0) := getDomainSettings st domainName in
  let perms :=
    filter (fun perm =>
              forallb (fun r => negb (String.eqb (parentCapability r) (parentCapability perm)))
                      permissionsToRemove = true)
           (permissions domain) in
  setDomain st0 domainName {| permissions := perms |}.

Definition clearDomains (st : CapabilitiesState) : CapabilitiesState :=
  setDomains st ∅.

(** The second loop of [grantNewPermissions]: [permissions[method] = newPerm]. *)
Fixpoint build_permissions (domain : string) (approved : IRequestedPermissions)
    (acc : list (string * IOcapLdCapability)) (st : CapabilitiesState)
  : list (string * IOcapLdCapability) * CapabilitiesState :=
  match approved with
  | [] => (acc, st)
  | (method, d) :: rest =>
      build_permissions domain rest
        (assoc_set method (Capability (draws st) method (requested_caveats d) domain) acc)
        (drawn st)
  end.

Definition grantNewPermissions (st : CapabilitiesState) (domain : string)
    (approved : IRequestedPermissions) (res : JsonRpcResponse) : Effect :=
  if existsb (fun '(methodName, _) => String.eqb (getMethodKeyFor methodName) "") approved
  then {| state_after := st;
          res_after := set_error res METHOD_NOT_FOUND;
          control := CallEnd (Some METHOD_NOT_FOUND) |}
  else
    let '(perms, st1) := build_permissions domain approved [] st in
    let st2 := addPermissionsFor st1 domain perms in
    {| state_after := st2;
       res_after := {| result := getPermissionsForDomain_js st2 domain; error := error res |};
       control := CallEnd None |}.

(** The loop of [finalizePermissionsRequest]: reading [.caveats] of each
    descriptor (which throws on [null] and [undefined]) and sorting the list
    in place. *)
Definition with_sorted_caveats (d : JsValue) (c : JsValue) : JsValue :=
  match d, c with
  | JObj dps, JArr _ => JObj (assoc_set "caveats" (sortCaveats_js c) dps)
  | _, _ => d
  end.

Fixpoint sort_all_caveats (ps : list (string * JsValue))
  : Completion (list (string * JsValue)) :=
  match ps with
  | [] => Normal []
  | (methodName, d) :: rest =>
      c ← js_member d "caveats";
      rest' ← sort_all_caveats rest;
      Normal ((methodName, with_sorted_caveats d c) :: rest')
  end.

(** [params[0] = v], for the in-place effect of the sort on the request. *)
Definition set_first (ps : JsValue) (v : JsValue) : JsValue :=
  match ps with
  | JArr (_ :: rest) => JArr (v :: rest)
  | JObj fields => JObj (assoc_set "0" v fields)
  | _ => ps
  end.

(** [finalizePermissionsRequest]: the boolean it returns, with the request
    and the response as it leaves them. [req] itself is always an object
    here. *)
Definition finalizePermissionsRequest (req : JsonRpcRequest) (res : JsonRpcResponse)
  : Completion (bool * JsonRpcRequest * JsonRpcResponse) :=
  let invalid := Normal (false, req, set_error res (invalidReq (Some req))) in
  if negb (truthy (params req)) then invalid
  else
    let first := js_index (params req) 0 in
    if negb (typeof_object first) then invalid
    else if isArray first then invalid
    else
      keys ← object_keys first;
      if Nat.eqb (length keys) 0 then invalid
      else
        match first with
        | JObj ps =>
            sorted ← sort_all_caveats ps;
            Normal (true,
                    {| req_method := req_method req;
                       params := set_first (params req) (JObj sorted) |},
                    res)
        | _ => Normal (true, req, res)
        end.

(** [{ ...extra, ...metadata }]: the keys of [metadata] win; its [origin] is
    always there, its [id] only when one was assigned. *)
Definition merge_metadata (extra : JsValue) (metadata : IOriginMetadata) : IOriginMetadata :=
  {| origin := origin metadata;
     meta_id := match meta_id metadata with
                | JUndefined => get_prop extra "id"
                | i => i
                end |}.

(** [req.params.pop()] *)
Definition js_pop (ps : JsValue) : Completion (JsValue * JsValue) :=
  match ps with
  | JArr xs => Normal (List.last xs JUndefined, JArr (removelast xs))
  | _ => Abrupt (TypeError "pop is not a function")
  end.

(** [getFinalizedRequestMetadata]: the metadata it returns, with the request
    (its second parameter popped) and the state (one [uuid()] drawn when no
    id was there). When nothing is merged the id is assigned on the object
    the caller passed in; what the caller sees of it afterwards is not part
    of the embedding. *)
Definition getFinalizedRequestMetadata (st : CapabilitiesState)
    (metadata : IOriginMetadata) (req : JsonRpcRequest)
  : Completion (IOriginMetadata * JsonRpcRequest * CapabilitiesState) :=
  '(metadata1, req1) ←
    (if bool_decide (get_prop (params req) "length" = JNum 2) then
       extra ← js_member (js_index (params req) 1) "metadata";
       if truthy extra then
         '(popped, ps) ← js_pop (params req);
         Normal (merge_metadata (get_prop popped "metadata") metadata,
                 {| req_method := req_method req; params := ps |})
       else Normal (metadata, req)
     else Normal (metadata, req));
  if negb (truthy (meta_id metadata1))
  then Normal ({| origin := origin metadata1; meta_id := JStr (uuid (draws st)) |},
               req1, drawn st)
  else Normal (metadata1, req1, st).

Definition getPermissionsMiddleware (st : CapabilitiesState) (domain : IOriginMetadata)
    (res : JsonRpcResponse) : Effect :=
  {| state_after := st;
     res_after := {| result := getPermissionsForDomain_js st (origin domain);
                     error := error res |};
     control := CallEnd None |}.

Definition threw (st : CapabilitiesState) (res : JsonRpcResponse) (e : JsError) : Effect :=
  {| state_after := st; res_after := res; control := Throws e |}.

(** [requestPermissionsMiddleware] up to the call of [requestUserApproval]:
    [AwaitApproval] hands the pending request to the approval prompt. The
    source goes on with any payload that passed the validation; the embedding
    follows it for payloads whose caveats are absent or arrays of
    [{type, value}] with a string [type], and stops at [OutsideTypes] for
    the others, where what happens depends on the absent ./src/caveats. *)
Definition requestPermissionsMiddleware (st : CapabilitiesState)
    (metadata : IOriginMetadata) (req : JsonRpcRequest) (res : JsonRpcResponse) : Effect :=
  match finalizePermissionsRequest req res with
  | Abrupt e => threw st res e
  | Normal (false, _, res1) =>
      {| state_after := st; res_after := res1; control := CallEnd (error res1) |}
  | Normal (true, req1, res1) =>
      match getFinalizedRequestMetadata st metadata req1 with
      | Abrupt e => threw st res1 e
      | Normal (metadata1, req2, st1) =>
          match asRequestedPermissions (js_index (params req2) 0) with
          | None => {| state_after := st1; res_after := res1; control := OutsideTypes |}
          | Some perms =>
              match hasPermissions_js st1 (origin metadata1) perms with
              | Abrupt e => threw st1 res1 e
              | Normal true =>
                  {| state_after := st1;
                     res_after :=
                       {| result := getPermissionsForDomain_js st1 (origin metadata1);
                          error := error res1 |};
                     control := CallEnd None |}
              | Normal false =>
                  let permissionsRequest :=
                    {| pr_origin := origin metadata1;
                       pr_metadata := metadata1;
                       pr_permissions := perms |} in
                  {| state_after :=
                       setPermissionsRequests st1
                         (getPermissionsRequests st1 ++ [permissionsRequest]);
                     res_after := res1;
                     control := AwaitApproval permissionsRequest |}
              end
          end
      end
  end.

(** The [then] and [catch] handlers attached to the approval promise. *)
Definition approval_handlers (st : CapabilitiesState) (permissionsRequest : IPermissionsRequest)
    (res : JsonRpcResponse) (a : Approval) : Effect :=
  match a with
  | Resolved approved =>
      if Nat.eqb (length approved.*1) 0 then
        {| state_after := st;
           res_after := set_error res USER_REJECTED_ERROR;
           control := CallEnd (Some USER_REJECTED_ERROR) |}
      else if negb (truthy (meta_id (pr_metadata permissionsRequest))) then
        {| state_after := st;
           res_after := set_error res (invalidReq None);
           control := CallEnd (Some (invalidReq None)) |}
      else grantNewPermissions st (origin (pr_metadata permissionsRequest)) approved res
  | Rejected reason =>
      {| state_after := st;
         res_after := set_error res (Rejection reason);
         control := CallEnd (Some (Rejection reason)) |}
  end.

(** The [finally] handler. *)
Definition approval_finally (st : CapabilitiesState) (permissionsRequest : IPermissionsRequest)
  : CapabilitiesState :=
  if truthy (meta_id (pr_metadata permissionsRequest))
  then removePermissionsRequest st (meta_id (pr_metadata permissionsRequest))
  else st.

(** The promise chain run to its end, from the state the controller is in
    when the approval settles. *)
Definition approval_settled (st : CapabilitiesState) (permissionsRequest : IPermissionsRequest)
    (res : JsonRpcResponse) (a : Approval) : Effect :=
  let e := approval_handlers st permissionsRequest res a in
  {| state_after := approval_finally (state_after e) permissionsRequest;
     res_after := res_after e;
     control := control e |}.

(** [caveatFnGens[type]] where the call [caveatFnGen(serializedCaveat)]
    returns: the private [caveats] table [{ filterParams, filterResponse }]
    is a plain object, so the lookup also finds the members of
    [Object.prototype]. Of those, [constructor] and [toString] return when
    called without a receiver (the module is strict code); the other
    functions throw on the missing receiver, and [__proto__] is no
    function. *)
Definition caveatFnGens (type : string) : option ICaveatFunctionGenerator :=
  if String.eqb type "filterParams" then Some filterParams
  else if String.eqb type "filterResponse" then Some filterResponse
  else if String.eqb type "constructor" then Some ObjectConstructor
  else if String.eqb type "toString" then Some ObjectToString
  else None.

(** The [TypeError] of a call that does not return: of something that is no
    function ([undefined], or [Object.prototype] under [__proto__]), or of an
    inherited function that needs its receiver. *)
Definition caveatFnGen_error (type : string) : JsError :=
  if inherited type && negb (String.eqb type "__proto__")
  then TypeError "Cannot convert undefined or null to object"
  else TypeError "caveatFnGen is not a function".

(** The [forEach] of [executeMethod]. *)
Fixpoint push_caveats (cs : list IOcapLdCaveat) : Completion (list ICaveatFunction) :=
  match cs with
  | [] => Normal []
  | serializedCaveat :: rest =>
      match caveatFnGens (caveat_type serializedCaveat) with
      | None => Abrupt (caveatFnGen_error (caveat_type serializedCaveat))
      | Some caveatFnGen =>
          fns ← push_caveats rest;
          Normal ({| made_by := caveatFnGen; made_from := serializedCaveat |} :: fns)
      end
  end.

Definition executeMethod (st : CapabilitiesState) (domain : IOriginMetadata)
    (req : JsonRpcRequest) (res : JsonRpcResponse) : Effect :=
  let methodKey := getMethodKeyFor (req_method req) in
  match getPermission_js st (origin domain) (req_method req) with
  | Abrupt e => threw st res e
  | Normal permission =>
      match (if String.eqb methodKey "" then None
             else restrictedMethods !! methodKey ≫= rm_method) with
      | Some target =>
          match permission ≫= caveats with
          | Some (c :: cs) =>
              match push_caveats (c :: cs) with
              | Normal pipeline =>
                  {| state_after := st; res_after := res;
                     control := RunRestricted pipeline methodKey target |}
              | Abrupt e => threw st res e
              end
          | _ =>
              {| state_after := st; res_after := res;
                 control := RunRestricted [] methodKey target |}
          end
      | None =>
          {| state_after := st;
             res_after := set_error res METHOD_NOT_FOUND;
             control := CallEnd (Some METHOD_NOT_FOUND) |}
      end
  end.

Inductive InternalMethod : Type :=
| GetPermissions
| RequestPermissions.

(** [this.internalMethods], in the order the constructor fills it. *)
Definition internalMethods : list (string * InternalMethod) :=
  assoc_set (methodPrefix +:+ "requestPermissions") RequestPermissions
    (assoc_set (methodPrefix +:+ "getPermissions") GetPermissions []).

(** [providerMiddlewareFunction]. What the [try] around [getPermission]
    catches becomes the error [{ message: err.message, code: 1 }]. *)
Definition providerMiddlewareFunction (st : CapabilitiesState) (domain : IOriginMetadata)
    (req : JsonRpcRequest) (res : JsonRpcResponse) : Effect :=
  let methodName := req_method req in
  if bool_decide (methodName ∈ safeMethods) then
    {| state_after := st; res_after := res; control := CallNext |}
  else
    match assoc methodName internalMethods with
    | Some GetPermissions => getPermissionsMiddleware st domain res
    | Some RequestPermissions => requestPermissionsMiddleware st domain req res
    | None =>
        match getPermission_js st (origin domain) methodName with
        | Abrupt (TypeError message) =>
            {| state_after := st;
               res_after := set_error res (GenericError message);
               control := CallEnd (Some (GenericError message)) |}
        | Normal None =>
            {| state_after := st;
               res_after := set_error res (unauthorized req);
               control := CallEnd (Some (unauthorized req)) |}
        | Normal (Some _) => executeMethod st domain req res
        end
    end.

End CapabilitiesController.

(** ** Specification-side definitions *)

(** The accumulated prefixes of a method name, in the spec's words: its
    underscore-separated segments, taken one more at a time from the left,
    each followed by an underscore. *)
Fixpoint accumulated_from (managed : string) (segments : list string) : list string :=
  match segments with
  | [] => []
  | seg :: rest =>
      let managed' := managed +:+ seg +:+ "_" in
      managed' :: accumulated_from managed' rest
  end.

Definition accumulated_prefixes (method : string) : list string :=
  accumulated_from "" (split underscore method).

(** No origin is registered with an empty list of permissions. *)
Definition no_empty_domain (st : CapabilitiesState) : Prop :=
  forall (d : string) (e : RpcCapDomainEntry),
    default ∅ (domains st) !! d = Some e -> permissions e <> [].

(** The capabilities [addPermissionsFor] makes out of the supplied ones,
    the first of them at draw [n]: method and caveats are the supplied ones,
    the invoker is the grantee, id and date come from the oracles. *)
Fixpoint fresh_capabilities (uuid : nat -> string) (now : nat -> Z) (grantee : string)
    (n : nat) (news : list (string * IOcapLdCapability)) : list IOcapLdCapability :=
  match news with
  | [] => []
  | (_, newPerm) :: rest =>
      Capability uuid now n (parentCapability newPerm) (caveats newPerm) grantee
        :: fresh_capabilities uuid now grantee (S n) rest
  end.

(** State [st] after [k] more draws. *)
Definition after_draws (k : nat) (st : CapabilitiesState) : CapabilitiesState :=
  {| domains := domains st; permissionsRequests := permissionsRequests st;
     draws := k + draws st |}.

(** The capabilities the second loop of [grantNewPermissions] builds, the
    first of them at draw [n]. *)
Fixpoint built (uuid : nat -> string) (now : nat -> Z) (domain : string) (n : nat)
    (approved : IRequestedPermissions)
  : list (string * IOcapLdCapability) :=
  match approved with
  | [] => []
  | (method, d) :: rest =>
      (method, Capability uuid now n method (requested_caveats d) domain)
        :: built uuid now domain (S n) rest
  end.

(** The segments of a method name put together again, each followed by an
    underscore. *)
Fixpoint join_segments (segments : list string) : string :=
  match segments with
  | [] => ""
  | seg :: rest => seg +:+ "_" +:+ join_segments rest
  end.

(** An origin holds at most one capability per method name. *)
Definition unique_methods (st : CapabilitiesState) (d : string) : Prop :=
  NoDup (parentCapability <$> getPermissionsForDomain st d).

(** The capabilities of a list that carry a given method name. *)
Definition named (m : string) (perms : list IOcapLdCapability) : list IOcapLdCapability :=
  filter (fun p => parentCapability p = m) perms.

(** ** Data of the scenarios *)

(** A deterministic stand-in for the oracles. *)
Definition uuid0 (n : nat) : string := "uuid-" +:+ pretty n.
Definition now0 (n : nat) : Z := 1000 + Z.of_nat n.

Definition res0 : JsonRpcResponse := {| result := None; error := None |}.

Definition o1 : IOriginMetadata := {| origin := "o1"; meta_id := JUndefined |}.

Definition state_of (ds : gmap string RpcCapDomainEntry) : CapabilitiesState :=
  {| domains := Some ds; permissionsRequests := []; draws := 1 |}.

Definition fresh_state : CapabilitiesState :=
  {| domains := None; permissionsRequests := []; draws := 0 |}.

(** A namespaced restricted method, as in the doc comment of
    [getMethodKeyFor]. *)
Definition plugin_methods : gmap string RestrictedMethod :=
  {[ "plugin_" := {| description := "plugins"; rm_method := Some (Fn 0) |} ]}.

Definition plugin_call : JsonRpcRequest :=
  {| req_method := "plugin_foo_bar"; params := JArr [] |}.

(** [o1] holds the capability named by the key, [plugin_]. *)
Definition holds_key : CapabilitiesState :=
  state_of {[ "o1" := {| permissions := [Capability uuid0 now0 0 "plugin_" None "o1"] |} ]}.

(** [o1] holds the capability named by the method called. *)
Definition holds_method : CapabilitiesState :=
  state_of {[ "o1" := {| permissions := [Capability uuid0 now0 0 "plugin_foo_bar" None "o1"] |} ]}.

Definition account_methods : gmap string RestrictedMethod :=
  {[ "readAccounts" := {| description := "accounts"; rm_method := Some (Fn 1) |} ]}.

Definition read_accounts : JsonRpcRequest :=
  {| req_method := "readAccounts"; params := JArr [] |}.

Definition caveat_A : IOcapLdCaveat :=
  {| caveat_type := "filterParams"; caveat_value := JArr [JNum 1] |}.

Definition caveat_B : IOcapLdCaveat :=
  {| caveat_type := "filterResponse"; caveat_value := JArr [JNum 1] |}.

Definition caveat_unknown : IOcapLdCaveat :=
  {| caveat_type := "requireFoo"; caveat_value := JNull |}.

Definition holds_with (cs : list IOcapLdCaveat) : CapabilitiesState :=
  state_of {[ "o1" := {| permissions := [Capability uuid0 now0 0 "readAccounts" (Some cs) "o1"] |} ]}.

Definition underscore_methods : gmap string RestrictedMethod :=
  {[ "_foo_" := {| description := "foo"; rm_method := Some (Fn 2) |} ]}.

Definition contacts_methods : gmap string RestrictedMethod :=
  {[ "readContacts" := {| description := "contacts"; rm_method := Some (Fn 3) |} ]}.

Definition no_caveats : IRequestedPermission := {| requested_caveats := None |}.

Definition ask (payload : JsValue) : JsonRpcRequest :=
  {| req_method := "requestPermissions"; params := payload |}.

Definition pending0 : IPermissionsRequest :=
  {| pr_origin := "o1";
     pr_metadata := {| origin := "o1"; meta_id := JStr "uuid-0" |};
     pr_permissions := [("readContacts", no_caveats)] |}.

(** A request whose second parameter claims another origin and brings an id
    of its own. *)
Definition spoofing_request : JsonRpcRequest :=
  ask (JArr [JObj [("readContacts", JObj [])];
             JObj [("metadata", JObj [("origin", JStr "evil"); ("id", JStr "abc")])]]).

Definition pending_spoof : IPermissionsRequest :=
  {| pr_origin := "o1";
     pr_metadata := {| origin := "o1"; meta_id := JStr "abc" |};
     pr_permissions := [("readContacts", no_caveats)] |}.

Definition two_pending : CapabilitiesState :=
  {| domains := None; permissionsRequests := [pending0; pending_spoof]; draws := 1 |}.

Definition swapped_request : IRequestedPermissions :=
  [("readAccounts", {| requested_caveats := Some [caveat_B; caveat_A] |})].

Definition contacts_grant : IRequestedPermissions := [("readContacts", no_caveats)].

(** * Properties *)

(** ** Namespace resolution *)

Section MethodKeys.

Variable restrictedMethods : gmap string RestrictedMethod.

Abbreviation managed := (managedMethods_includes restrictedMethods).
Abbreviation keyFor := (getMethodKeyFor restrictedMethods).

Lemma string_length_app (a b : string) :
  String.length (a +:+ b) = String.length a + String.length b.
Proof. induction a as [|c a IH]; simpl; [done | by rewrite IH]. Qed.

Lemma accumulated_longer (segments : list string) (m q : string) :
  q ∈ accumulated_from m segments -> String.length m < String.length q.
Proof.
  revert m. induction segments as [|seg rest IH]; intros m Hq; simpl in Hq.
  - by apply elem_of_nil in Hq.
  - assert (Hstep : String.length m < String.length (m +:+ seg +:+ "_")).
    { rewrite !string_length_app. simpl. lia. }
    apply elem_of_cons in Hq as [-> | Hq]; [done |].
    apply IH in Hq. lia.
Qed.

(** The loop stops at the first accumulated prefix that is a key; when there
    is none it runs the segments out and ends on a string that is no key. *)
Lemma shift_segments_first (segments : list string) (m : string) :
  managed m = false ->
  (exists p, shift_segments restrictedMethods segments m = p
             /\ p ∈ accumulated_from m segments /\ managed p = true
             /\ forall q, q ∈ accumulated_from m segments -> managed q = true ->
                          String.length p <= String.length q)
  \/ (managed (shift_segments restrictedMethods segments m) = false
      /\ forall q, q ∈ accumulated_from m segments -> managed q = false).
Proof.
  revert m. induction segments as [|seg rest IH]; intros m Hm; simpl.
  - right. split; [done |]. intros q Hq. by apply elem_of_nil in Hq.
  - rewrite Hm. set (m' := m +:+ seg +:+ "_").
    destruct (managed m') eqn:Hm'.
    + left. exists m'. split.
      { destruct rest; simpl; [done | by rewrite Hm']. }
      split; [apply elem_of_cons; by left |]. split; [done |].
      intros q Hq _. apply elem_of_cons in Hq as [-> | Hq]; [done |].
      apply accumulated_longer in Hq. lia.
    + destruct (IH m' Hm') as [(p & Hp & Hin & Hman & Hmin) | [Hnone Hall]].
      * left. exists p. split; [done |]. split; [apply elem_of_cons; by right |].
        split; [done |]. intros q Hq Hq'.
        apply elem_of_cons in Hq as [-> | Hq]; [congruence | by apply Hmin].
      * right. split; [done |]. intros q Hq.
        apply elem_of_cons in Hq as [-> | Hq]; [done | by apply Hall].
Qed.

(** C5, as amended: an exact key resolves to itself. Otherwise, when the
    first underscore of the method stands after position 0 and the empty
    string is no key, the result is the shortest accumulated prefix that is a
    key, and the empty string when no accumulated prefix is one. A method
    that is no key resolves to the empty string whenever it has no
    underscore, starts with one, or the empty string is itself a key. *)
Theorem getMethodKeyFor_resolution (method : string) :
  (managed method = true -> keyFor method = method)
  /\ (managed method = false ->
      (exists n, indexOf underscore method = Some (S n)) ->
      managed "" = false ->
      (exists p, keyFor method = p
                 /\ p ∈ accumulated_prefixes method /\ managed p = true
                 /\ forall q, q ∈ accumulated_prefixes method -> managed q = true ->
                              String.length p <= String.length q)
      \/ (keyFor method = ""
          /\ forall q, q ∈ accumulated_prefixes method -> managed q = false))
  /\ (managed method = false ->
      indexOf underscore method = None \/ indexOf underscore method = Some 0 ->
      keyFor method = "")
  /\ (managed method = false -> managed "" = true -> keyFor method = "").
Proof.
  unfold getMethodKeyFor. repeat split.
  - by intros ->.
  - intros Hm [n Hn] He. rewrite Hm, Hn.
    destruct (shift_segments_first (split underscore method) "" He)
      as [(p & Hp & Hin & Hman & Hmin) | [Hnone Hall]].
    + left. exists p. rewrite Hp, Hman. done.
    + right. rewrite Hnone. by split.
  - intros Hm [Hi | Hi]; by rewrite Hm, Hi.
  - intros Hm He. rewrite Hm.
    destruct (indexOf underscore method) as [[|n]|]; try done.
    assert (Hs : shift_segments restrictedMethods (split underscore method) "" = "").
    { destruct (split underscore method); simpl; [done | by rewrite He]. }
    by rewrite Hs, He.
Qed.

End MethodKeys.

(** ** The permission store *)

Lemma filter_none {A : Type} (P : A -> Prop) `{forall x, Decision (P x)} (l : list A) :
  Forall (fun x => ~ P x) l -> filter P l = [].
Proof.
  induction 1 as [|x l Hx _ IH]; [done |].
  by rewrite filter_cons_False.
Qed.

Section Store.

Variable uuid : nat -> string.
Variable now : nat -> Z.

Lemma setDomain_lookup (st : CapabilitiesState) (d d' : string) (e : RpcCapDomainEntry) :
  getDomains (setDomain st d e) !! d' =
    if decide (d = d')
    then (if decide (0 < length (permissions e)) then Some e else None)
    else getDomains st !! d'.
Proof.
  unfold setDomain, setDomains, getDomains. simpl.
  destruct (decide (0 < length (permissions e))); destruct (decide (d = d')) as [->|Hne].
  - by rewrite lookup_insert_eq.
  - by rewrite lookup_insert_ne.
  - by rewrite lookup_delete_eq.
  - by rewrite lookup_delete_ne.
Qed.

Lemma setDomain_frame (st : CapabilitiesState) (d : string) (e : RpcCapDomainEntry) :
  permissionsRequests (setDomain st d e) = permissionsRequests st
  /\ draws (setDomain st d e) = draws st.
Proof. done. Qed.

Lemma getDomainSettings_permissions (st : CapabilitiesState) (d : string) :
  permissions (getDomainSettings st d).1 = getPermissionsForDomain st d.
Proof.
  unfold getDomainSettings, getPermissionsForDomain, getDomains.
  by destruct (default ∅ (domains st) !! d).
Qed.

Lemma getDomainSettings_other (st : CapabilitiesState) (d d' : string) :
  d <> d' -> getDomains (getDomainSettings st d).2 !! d' = getDomains st !! d'.
Proof.
  intros Hne. unfold getDomainSettings.
  destruct (getDomains st !! d) eqn:Hd; [done |]. simpl.
  unfold getDomains in *. destruct (domains st) as [ds|] eqn:E; simpl in *.
  - by rewrite lookup_insert_ne.
  - by rewrite E.
Qed.

Lemma getDomainSettings_frame (st : CapabilitiesState) (d : string) :
  permissionsRequests (getDomainSettings st d).2 = permissionsRequests st
  /\ draws (getDomainSettings st d).2 = draws st.
Proof.
  unfold getDomainSettings. destruct (getDomains st !! d); [done |].
  by destruct (domains st).
Qed.

Lemma push_new_spec (grantee : string) (news : list (string * IOcapLdCapability))
    (acc : list IOcapLdCapability) (st : CapabilitiesState) :
  push_new uuid now grantee news acc st =
    ((acc ++ fresh_capabilities uuid now grantee (draws st) news)%list,
     after_draws (length news) st).
Proof.
  revert acc st. induction news as [|[k newPerm] rest IH]; intros acc st; simpl.
  - rewrite app_nil_r. by destruct st.
  - rewrite IH. simpl. rewrite <- app_assoc. simpl. f_equal.
    unfold after_draws, drawn. simpl. f_equal. lia.
Qed.

Lemma fresh_capabilities_lookup (grantee : string) (n i : nat)
    (news : list (string * IOcapLdCapability)) (k : string) (newPerm : IOcapLdCapability) :
  news !! i = Some (k, newPerm) ->
  fresh_capabilities uuid now grantee n news !! i =
    Some (Capability uuid now (n + i) (parentCapability newPerm) (caveats newPerm) grantee).
Proof.
  revert n i. induction news as [|[k' p'] rest IH]; intros n i Hi; [done |].
  destruct i as [|i]; simpl in *.
  - inversion Hi; subst. by rewrite Nat.add_0_r.
  - rewrite (IH (S n) i Hi). do 2 f_equal. lia.
Qed.

Lemma fresh_capabilities_ext (grantee : string) (n : nat)
    (news news' : list (string * IOcapLdCapability)) :
  Forall2 (fun a b => parentCapability a.2 = parentCapability b.2
                      /\ caveats a.2 = caveats b.2) news news' ->
  fresh_capabilities uuid now grantee n news = fresh_capabilities uuid now grantee n news'.
Proof.
  intros H. revert n. induction H as [|[k a] [k' b] l l' [Hp Hc] _ IH]; intros n; [done |].
  simpl in *. by rewrite Hp, Hc, IH.
Qed.

(** What [addPermissionsFor] leaves under the grantee's key. *)
Lemma addPermissionsFor_unfold (st : CapabilitiesState) (d : string)
    (news : list (string * IOcapLdCapability)) :
  addPermissionsFor uuid now st d news =
    setDomain (after_draws (length news) (getDomainSettings st d).2) d
      {| permissions :=
           (filter (fun oldPerm => parentCapability oldPerm ∉ news.*1)
                   (getPermissionsForDomain st d)
              ++ fresh_capabilities uuid now d (draws st) news)%list |}.
Proof.
  unfold addPermissionsFor, getOrCreateDomainSettings.
  pose proof (getDomainSettings_permissions st d) as Hp.
  pose proof (getDomainSettings_frame st d) as [_ Hd].
  destruct (getDomainSettings st d) as [domain st0]. simpl in *.
  rewrite push_new_spec. by rewrite Hp, Hd.
Qed.

Lemma getPermissionsForDomain_setDomain (st : CapabilitiesState) (d : string)
    (e : RpcCapDomainEntry) :
  getPermissionsForDomain (setDomain st d e) d = permissions e.
Proof.
  unfold getPermissionsForDomain. fold (getDomains (setDomain st d e)).
  rewrite setDomain_lookup. rewrite decide_True by done.
  destruct (decide (0 < length (permissions e))) as [|Hz]; [done |].
  destruct (permissions e); [done | simpl in Hz; lia].
Qed.

Lemma getPermissionsForDomain_js_Some (st : CapabilitiesState) (d : string)
    (l : list IOcapLdCapability) :
  getPermissionsForDomain_js st d = Some l -> l = getPermissionsForDomain st d.
Proof.
  unfold getPermissionsForDomain_js, getPermissionsForDomain.
  destruct (default ∅ (domains st) !! d); [by intros [= <-] |].
  destruct (inherited d); [done | by intros [= <-]].
Qed.

Lemma getPermissionsForDomain_js_held (st : CapabilitiesState) (d : string) :
  getPermissionsForDomain st d <> [] ->
  getPermissionsForDomain_js st d = Some (getPermissionsForDomain st d).
Proof.
  unfold getPermissionsForDomain_js, getPermissionsForDomain.
  by destruct (default ∅ (domains st) !! d).
Qed.

Lemma getPermission_js_Normal (st : CapabilitiesState) (d m : string)
    (o : option IOcapLdCapability) :
  getPermission_js st d m = Normal o -> o = getPermission st d m.
Proof.
  unfold getPermission_js, getPermission.
  destruct (getPermissionsForDomain_js st d) as [l|] eqn:Hl; [| done].
  apply getPermissionsForDomain_js_Some in Hl. subst l. by intros [= <-].
Qed.

Lemma getPermission_js_of_Some (st : CapabilitiesState) (d m : string)
    (c : IOcapLdCapability) :
  getPermission st d m = Some c -> getPermission_js st d m = Normal (Some c).
Proof.
  intros Hc. unfold getPermission_js.
  rewrite getPermissionsForDomain_js_held.
  - unfold getPermission in Hc. by rewrite Hc.
  - unfold getPermission in Hc. by destruct (getPermissionsForDomain st d).
Qed.

End Store.

(** C9, for a registry that has no empty entry to begin with: the store
    operations keep the registry free of empty entries. [setDomain] stores a
    non-empty entry and deletes the key of an empty one; [addPermissionsFor]
    and [removePermissionsFor] end on [setDomain] for the origin they touch,
    so removing the last capability of an origin removes its key;
    [clearDomains] leaves no key at all. An empty entry that is already in
    the registry under another origin is not removed by them. *)
Theorem store_has_no_empty_domain (uuid : nat -> string) (now : nat -> Z)
    (st : CapabilitiesState) (Hinv : no_empty_domain st) :
  (forall d e,
      no_empty_domain (setDomain st d e)
      /\ (permissions e <> [] -> getDomains (setDomain st d e) !! d = Some e)
      /\ (permissions e = [] -> getDomains (setDomain st d e) !! d = None))
  /\ (forall d news, no_empty_domain (addPermissionsFor uuid now st d news))
  /\ (forall d gone,
         no_empty_domain (removePermissionsFor st d gone)
         /\ ((forall p, p ∈ getPermissionsForDomain st d ->
                        exists r, r ∈ gone /\ parentCapability r = parentCapability p) ->
             getDomains (removePermissionsFor st d gone) !! d = None))
  /\ no_empty_domain (clearDomains st)
  /\ getDomains (clearDomains st) = ∅.
Proof.
  assert (Hset : forall st0 d e,
             (forall d' e', d <> d' -> getDomains st0 !! d' = Some e' -> permissions e' <> []) ->
             no_empty_domain (setDomain st0 d e)).
  { intros st0 d e Hother d' e'. fold (getDomains (setDomain st0 d e)).
    rewrite setDomain_lookup. destruct (decide (d = d')) as [->|Hne].
    - destruct (decide (0 < length (permissions e))) as [Hpos|]; [| done].
      intros [= <-] Hnil. rewrite Hnil in Hpos. simpl in Hpos. lia.
    - by apply Hother. }
  assert (Htouch : forall d d' e',
             d <> d' -> getDomains (getDomainSettings st d).2 !! d' = Some e' ->
             permissions e' <> []).
  { intros d d' e' Hne. rewrite getDomainSettings_other by done. apply Hinv. }
  split; [| split; [| split; [| split]]].
  - intros d e. split; [| split].
    + apply Hset. intros d' e' _. apply Hinv.
    + intros Hne. rewrite setDomain_lookup, decide_True by done.
      rewrite decide_True; [done |]. destruct (permissions e); [done | simpl; lia].
    + intros Hnil. rewrite setDomain_lookup, decide_True by done.
      rewrite decide_False; [done |]. rewrite Hnil. simpl. lia.
  - intros d news. rewrite addPermissionsFor_unfold. apply Hset.
    intros d' e' Hne. apply Htouch. done.
  - intros d gone. unfold removePermissionsFor.
    pose proof (getDomainSettings_permissions st d) as Hp.
    pose proof (Htouch d) as Hd.
    destruct (getDomainSettings st d) as [domain st0]. simpl in *. split.
    + apply Hset. intros d' e' Hne. by apply Hd.
    + intros Hall. rewrite setDomain_lookup, decide_True by done.
      rewrite decide_False; [done |]. simpl.
      assert (Hnil : filter
                (fun perm => forallb (fun r => negb (String.eqb (parentCapability r)
                                                                  (parentCapability perm)))
                                       gone = true) (permissions domain) = []).
      { apply filter_none. rewrite Hp. apply Forall_forall. intros p Hin Hkeep.
        destruct (Hall p Hin) as (r & Hr & Heq).
        rewrite forallb_forall in Hkeep. apply list_elem_of_In in Hr.
        specialize (Hkeep r Hr). rewrite Heq, String.eqb_refl in Hkeep. done. }
      rewrite Hnil. simpl. lia.
  - intros d e. unfold clearDomains, setDomains. simpl. by rewrite lookup_empty.
  - done.
Qed.

(** C10: what [addPermissionsFor] stores for the grantee is the old
    capabilities for other methods followed by one new capability per
    supplied one, whose invoker is the grantee and whose id and date are the
    next draws of the oracles; only the method and the caveats of a supplied
    capability are read, so supplied invoker, id and date change nothing. *)
Theorem addPermissionsFor_stamps_new_capabilities (uuid : nat -> string) (now : nat -> Z)
    (st : CapabilitiesState) (domainName : string)
    (newPermissions : list (string * IOcapLdCapability)) :
  getPermissionsForDomain (addPermissionsFor uuid now st domainName newPermissions) domainName
    = (filter (fun oldPerm => parentCapability oldPerm ∉ newPermissions.*1)
              (getPermissionsForDomain st domainName)
         ++ fresh_capabilities uuid now domainName (draws st) newPermissions)%list
  /\ (forall i k newPerm,
         newPermissions !! i = Some (k, newPerm) ->
         exists c,
           fresh_capabilities uuid now domainName (draws st) newPermissions !! i = Some c
           /\ invoker c = domainName
           /\ cap_id c = uuid (draws st + i)
           /\ date c = now (draws st + i)
           /\ parentCapability c = parentCapability newPerm
           /\ caveats c = caveats newPerm)
  /\ (forall others,
         Forall2 (fun a b => a.1 = b.1
                             /\ parentCapability a.2 = parentCapability b.2
                             /\ caveats a.2 = caveats b.2) newPermissions others ->
         addPermissionsFor uuid now st domainName others
           = addPermissionsFor uuid now st domainName newPermissions).
Proof.
  split; [| split].
  - rewrite addPermissionsFor_unfold. apply getPermissionsForDomain_setDomain.
  - intros i k newPerm Hi. eexists. split.
    + by apply fresh_capabilities_lookup with (k := k).
    + done.
  - intros others Hsame. rewrite !addPermissionsFor_unfold.
    assert (Hkeys : others.*1 = newPermissions.*1).
    { clear -Hsame. induction Hsame as [|a b l l' [Hk _] _ IH]; [done |].
      rewrite !fmap_cons. by rewrite Hk, IH. }
    assert (Hlen : length others = length newPermissions).
    { symmetry. by eapply Forall2_length. }
    rewrite Hkeys, Hlen. do 3 f_equal. symmetry.
    apply fresh_capabilities_ext.
    eapply Forall2_impl; [exact Hsame |]. by intros a b (_ & ? & ?).
Qed.

(** ** Granting *)

Section Granting.

Variable restrictedMethods : gmap string RestrictedMethod.
Variable uuid : nat -> string.
Variable now : nat -> Z.

Lemma assoc_set_fresh {A : Type} (k : string) (v : A) (ps : list (string * A)) :
  k ∉ ps.*1 -> assoc_set k v ps = (ps ++ [(k, v)])%list.
Proof.
  induction ps as [|[k' v'] rest IH]; intros Hk; simpl; [done |].
  rewrite fmap_cons in Hk. apply not_elem_of_cons in Hk as [Hne Hk].
  destruct (String.eqb_spec k' k) as [->|_]; [done |]. by rewrite IH.
Qed.

Lemma built_keys (domain : string) (n : nat) (approved : IRequestedPermissions) :
  (built uuid now domain n approved).*1 = approved.*1.
Proof.
  revert n. induction approved as [|[m d] rest IH]; intros n; [done |].
  simpl. by rewrite IH.
Qed.

Lemma built_lookup (domain : string) (n i : nat) (approved : IRequestedPermissions)
    (m : string) (d : IRequestedPermission) :
  approved !! i = Some (m, d) ->
  built uuid now domain n approved !! i =
    Some (m, Capability uuid now (n + i) m (requested_caveats d) domain).
Proof.
  revert n i. induction approved as [|[m' d'] rest IH]; intros n i Hi; [done |].
  destruct i as [|i]; simpl in *.
  - inversion Hi; subst. by rewrite Nat.add_0_r.
  - rewrite (IH (S n) i Hi). do 3 f_equal. lia.
Qed.

Lemma build_permissions_spec (domain : string) (approved : IRequestedPermissions)
    (acc : list (string * IOcapLdCapability)) (st : CapabilitiesState) :
  NoDup approved.*1 ->
  (forall k, k ∈ approved.*1 -> k ∉ acc.*1) ->
  build_permissions uuid now domain approved acc st =
    ((acc ++ built uuid now domain (draws st) approved)%list, after_draws (length approved) st).
Proof.
  revert acc st. induction approved as [|[m d] rest IH]; intros acc st Hnd Hfresh; simpl.
  - rewrite app_nil_r. by destruct st.
  - rewrite fmap_cons in Hnd. apply NoDup_cons in Hnd as [Hm Hnd].
    rewrite assoc_set_fresh by (apply Hfresh; rewrite fmap_cons; by left).
    rewrite IH; [| done |].
    + simpl. rewrite <- app_assoc. simpl. f_equal.
      unfold after_draws, drawn. simpl. f_equal. lia.
    + intros k Hk. rewrite fmap_app. simpl. intros Hin.
      apply elem_of_app in Hin as [Hin | Hin].
      * revert Hin. apply Hfresh. rewrite fmap_cons. by right.
      * apply list_elem_of_singleton in Hin. simpl in Hin. by subst.
Qed.

End Granting.

(** ** The permission-request workflow *)

Section Workflow.

Variable restrictedMethods : gmap string RestrictedMethod.
Variable uuid : nat -> string.
Variable now : nat -> Z.

(** [uuid()] never returns the empty string. *)
Hypothesis uuid_nonempty : forall n, uuid n <> "".

Lemma getFinalizedRequestMetadata_has_id (st st1 : CapabilitiesState)
    (metadata metadata1 : IOriginMetadata) (req req1 : JsonRpcRequest) :
  getFinalizedRequestMetadata uuid st metadata req = Normal (metadata1, req1, st1) ->
  truthy (meta_id metadata1) = true.
Proof.
  unfold getFinalizedRequestMetadata.
  destruct (if bool_decide (get_prop (params req) "length" = JNum 2) then _ else _)
    as [[m r]|e]; simpl; [| done].
  destruct (truthy (meta_id m)) eqn:Hid; simpl; intros [= <- _ _]; [done |].
  simpl. destruct (String.eqb_spec (uuid (draws st)) ""); [| done].
  by destruct (uuid_nonempty (draws st)).
Qed.

Lemma removePermissionsRequest_absent (st : CapabilitiesState) (requestId : JsValue)
    (r : IPermissionsRequest) :
  r ∈ permissionsRequests (removePermissionsRequest st requestId) ->
  meta_id (pr_metadata r) <> requestId.
Proof.
  unfold removePermissionsRequest, setPermissionsRequests. simpl.
  intros Hin. by apply list_elem_of_filter in Hin as [Hne _].
Qed.

(** C7: a request that reaches the approval prompt carries an id, is in the
    queue when the prompt is called, and is gone from the queue once the
    approval has settled, whichever way it settled (granted, resolved empty,
    an approved method unknown, rejected) and whatever happened to the state
    in between. *)
Theorem pending_request_is_removed (st : CapabilitiesState) (metadata : IOriginMetadata)
    (req : JsonRpcRequest) (res : JsonRpcResponse) (pending : IPermissionsRequest)
    (Hprompt : control (requestPermissionsMiddleware uuid st metadata req res)
               = AwaitApproval pending) :
  truthy (meta_id (pr_metadata pending)) = true
  /\ pending ∈ permissionsRequests
                 (state_after (requestPermissionsMiddleware uuid st metadata req res))
  /\ forall (later : CapabilitiesState) (res' : JsonRpcResponse) (a : Approval)
            (final : CapabilitiesState),
       final = state_after (approval_settled restrictedMethods uuid now later pending res' a) ->
       (pending ∉ permissionsRequests final)
       /\ (forall r, r ∈ permissionsRequests final ->
                     meta_id (pr_metadata r) <> meta_id (pr_metadata pending)).
Proof.
  unfold requestPermissionsMiddleware in *.
  destruct (finalizePermissionsRequest req res) as [[[ok req1] res1]|e]; [| done].
  destruct ok; [| done].
  destruct (getFinalizedRequestMetadata uuid st metadata req1)
    as [[[metadata1 req2] st1]|e] eqn:Hmeta; [| done].
  apply getFinalizedRequestMetadata_has_id in Hmeta.
  destruct (asRequestedPermissions (js_index (params req2) 0)) as [perms|]; [| done].
  destruct (hasPermissions_js st1 (origin metadata1) perms) as [[|]|e]; [done | | done].
  simpl in *. injection Hprompt as Hpending. subst pending. simpl.
  split; [done |]. split.
  - apply elem_of_app. right. by apply list_elem_of_singleton.
  - intros later res' a final Hfinal.
    assert (Hall : forall r, r ∈ permissionsRequests final ->
                             meta_id (pr_metadata r) <> meta_id metadata1).
    { intros r. subst final. unfold approval_settled, approval_finally. simpl.
      rewrite Hmeta. apply removePermissionsRequest_absent. }
    split; [| exact Hall].
    intros Hin. by apply Hall in Hin.
Qed.

End Workflow.

(** ** Routing and authorization *)

Section Routing.

Variable safeMethods : list string.
Variable restrictedMethods : gmap string RestrictedMethod.
Variable methodPrefix : string.
Variable uuid : nat -> string.

Abbreviation provider := (providerMiddlewareFunction safeMethods restrictedMethods methodPrefix uuid).

Lemma append_cancel (p a b : string) : p +:+ a = p +:+ b -> a = b.
Proof. induction p as [|c p IH]; simpl; [done |]. intros [= H]. by apply IH. Qed.

Lemma internalMethods_table :
  internalMethods methodPrefix =
    [(methodPrefix +:+ "getPermissions", GetPermissions);
     (methodPrefix +:+ "requestPermissions", RequestPermissions)].
Proof.
  unfold internalMethods. simpl.
  destruct (String.eqb_spec (methodPrefix +:+ "getPermissions")
                            (methodPrefix +:+ "requestPermissions")) as [E|_]; [| done].
  by apply append_cancel in E.
Qed.

(** C6: a safe method is passed to [next] with state and response untouched,
    whatever the internal table, the restricted methods and the stored
    permissions are; a method that is not safe and names an internal method
    is answered by that handler, whatever the restricted methods are; only
    the others reach the permission check. *)
Theorem routing_priority (st : CapabilitiesState) (domain : IOriginMetadata)
    (req : JsonRpcRequest) (res : JsonRpcResponse) :
  (req_method req ∈ safeMethods ->
     provider st domain req res = {| state_after := st; res_after := res; control := CallNext |})
  /\ (req_method req ∉ safeMethods ->
      req_method req = methodPrefix +:+ "getPermissions" ->
      provider st domain req res = getPermissionsMiddleware st domain res)
  /\ (req_method req ∉ safeMethods ->
      req_method req = methodPrefix +:+ "requestPermissions" ->
      provider st domain req res = requestPermissionsMiddleware uuid st domain req res)
  /\ (req_method req ∉ safeMethods ->
      req_method req <> methodPrefix +:+ "getPermissions" ->
      req_method req <> methodPrefix +:+ "requestPermissions" ->
      provider st domain req res =
        match getPermission_js st (origin domain) (req_method req) with
        | Abrupt (TypeError message) =>
            {| state_after := st;
               res_after := set_error res (GenericError message);
               control := CallEnd (Some (GenericError message)) |}
        | Normal None =>
            {| state_after := st;
               res_after := set_error res (unauthorized req);
               control := CallEnd (Some (unauthorized req)) |}
        | Normal (Some _) => executeMethod restrictedMethods st domain req res
        end).
Proof.
  unfold providerMiddlewareFunction. rewrite internalMethods_table. simpl.
  split; [| split; [| split]].
  - intros Hsafe. by rewrite bool_decide_eq_true_2.
  - intros Hsafe Heq. rewrite bool_decide_eq_false_2 by done.
    by rewrite Heq, String.eqb_refl.
  - intros Hsafe Heq. rewrite bool_decide_eq_false_2 by done. rewrite Heq.
    destruct (String.eqb_spec (methodPrefix +:+ "getPermissions")
                              (methodPrefix +:+ "requestPermissions")) as [E|_].
    + by apply append_cancel in E.
    + by rewrite String.eqb_refl.
  - intros Hsafe Hg Hr. rewrite bool_decide_eq_false_2 by done.
    destruct (String.eqb_spec (methodPrefix +:+ "getPermissions") (req_method req));
      [congruence |].
    destruct (String.eqb_spec (methodPrefix +:+ "requestPermissions") (req_method req));
      [congruence | done].
Qed.

(** The same path, for the proofs below. *)
Lemma provider_restricted_path (st : CapabilitiesState) (domain : IOriginMetadata)
    (req : JsonRpcRequest) (res : JsonRpcResponse) :
  req_method req ∉ safeMethods ->
  req_method req <> methodPrefix +:+ "getPermissions" ->
  req_method req <> methodPrefix +:+ "requestPermissions" ->
  provider st domain req res =
    match getPermission_js st (origin domain) (req_method req) with
    | Abrupt (TypeError message) =>
        {| state_after := st;
           res_after := set_error res (GenericError message);
           control := CallEnd (Some (GenericError message)) |}
    | Normal None =>
        {| state_after := st;
           res_after := set_error res (unauthorized req);
           control := CallEnd (Some (unauthorized req)) |}
    | Normal (Some _) => executeMethod restrictedMethods st domain req res
    end.
Proof.
  intros Hsafe Hg Hr. unfold providerMiddlewareFunction.
  rewrite internalMethods_table. simpl. rewrite bool_decide_eq_false_2 by done.
  destruct (String.eqb_spec (methodPrefix +:+ "getPermissions") (req_method req));
    [congruence |].
  destruct (String.eqb_spec (methodPrefix +:+ "requestPermissions") (req_method req));
    [congruence | done].
Qed.

Lemma push_caveats_registered (cs : list IOcapLdCaveat) :
  Forall (fun c => is_Some (caveatFnGens (caveat_type c))) cs ->
  exists pipeline, push_caveats cs = Normal pipeline /\ length pipeline = length cs.
Proof.
  induction 1 as [|c cs [g Hg] _ (pipeline & IH & Hlen)]; simpl.
  - by exists [].
  - rewrite Hg, IH. simpl. eexists. split; [done |]. simpl. by rewrite Hlen.
Qed.

Lemma push_caveats_unregistered (cs : list IOcapLdCaveat) :
  Exists (fun c => caveatFnGens (caveat_type c) = None) cs ->
  exists c, c ∈ cs /\ caveatFnGens (caveat_type c) = None
            /\ push_caveats cs = Abrupt (caveatFnGen_error (caveat_type c)).
Proof.
  induction 1 as [c cs Hc | c cs _ (c' & Hin & Hc' & IH)]; simpl.
  - exists c. rewrite Hc. split; [apply elem_of_cons; by left | done].
  - destruct (caveatFnGens (caveat_type c)) eqn:Hc.
    + exists c'. rewrite IH. split; [apply elem_of_cons; by right | done].
    + exists c. split; [apply elem_of_cons; by left | done].
Qed.

(** [executeMethod] never answers [unauthorized]. *)
Lemma executeMethod_not_unauthorized (st : CapabilitiesState) (domain : IOriginMetadata)
    (req : JsonRpcRequest) (res : JsonRpcResponse) (r : JsonRpcRequest) :
  control (executeMethod restrictedMethods st domain req res)
  <> CallEnd (Some (unauthorized r)).
Proof. unfold executeMethod, threw. repeat case_match; simpl; done. Qed.

Lemma getPermissionsForDomain_js_None (st : CapabilitiesState) (d : string) :
  getPermissionsForDomain_js st d = None
  <-> getDomains st !! d = None /\ inherited d = true.
Proof.
  unfold getPermissionsForDomain_js, getDomains.
  destruct (default ∅ (domains st) !! d); [split; [done | by intros [? _]] |].
  destruct (inherited d); [done | split; [done | by intros [_ ?]]].
Qed.

Lemma caveatFnGens_None (type : string) :
  caveatFnGens type = None
  <-> type ∉ ["filterParams"; "filterResponse"; "constructor"; "toString"].
Proof.
  unfold caveatFnGens. rewrite !not_elem_of_cons.
  destruct (String.eqb_spec type "filterParams"); [split; [done | by intros [? _]] |].
  destruct (String.eqb_spec type "filterResponse"); [split; [done | by intros (_ & ? & _)] |].
  destruct (String.eqb_spec type "constructor"); [split; [done | by intros (_ & _ & ? & _)] |].
  destruct (String.eqb_spec type "toString"); [split; [done | by intros (_ & _ & _ & ? & _)] |].
  split; [intros _ | done]. repeat split; try done. apply not_elem_of_nil.
Qed.

(** C1, as amended: for a method that is neither safe nor internal, the
    permission looked up is the one whose [parentCapability] is the request's
    own method name. [unauthorized] is the answer exactly when that lookup
    returns [undefined], that is when the origin's permissions are a list
    without a capability of that name; when the lookup throws (an origin that
    is not in the registry and names a member of [Object.prototype]) the
    answer is the error [{ message, code: 1 }]; when the origin holds a
    capability of that name, the call goes to [executeMethod], which hands it
    to the restricted method registered under the resolved method key
    (behind the caveats of that capability, when for each of them the caveat
    table yields a stage). *)
Theorem authorization_is_by_method_name (st : CapabilitiesState) (domain : IOriginMetadata)
    (req : JsonRpcRequest) (res : JsonRpcResponse)
    (Hsafe : req_method req ∉ safeMethods)
    (Hget : req_method req <> methodPrefix +:+ "getPermissions")
    (Hreq : req_method req <> methodPrefix +:+ "requestPermissions") :
  (control (provider st domain req res) = CallEnd (Some (unauthorized req))
     <-> getPermission_js st (origin domain) (req_method req) = Normal None)
  /\ (getPermission_js st (origin domain) (req_method req) = Normal None
      <-> getPermissionsForDomain_js st (origin domain) <> None
          /\ getPermission st (origin domain) (req_method req) = None)
  /\ (getPermissionsForDomain_js st (origin domain) = None
      <-> getDomains st !! origin domain = None /\ inherited (origin domain) = true)
  /\ (forall message,
         getPermission_js st (origin domain) (req_method req) = Abrupt (TypeError message) ->
         getPermissionsForDomain_js st (origin domain) = None
         /\ provider st domain req res =
              {| state_after := st;
                 res_after := set_error res (GenericError message);
                 control := CallEnd (Some (GenericError message)) |})
  /\ (forall cap target,
         getPermission st (origin domain) (req_method req) = Some cap ->
         getMethodKeyFor restrictedMethods (req_method req) <> "" ->
         restrictedMethods !! getMethodKeyFor restrictedMethods (req_method req)
           ≫= rm_method = Some target ->
         Forall (fun c => is_Some (caveatFnGens (caveat_type c))) (default [] (caveats cap)) ->
         exists pipeline,
           length pipeline = length (default [] (caveats cap))
           /\ provider st domain req res =
                {| state_after := st; res_after := res;
                   control := RunRestricted pipeline
                                (getMethodKeyFor restrictedMethods (req_method req)) target |}).
Proof.
  rewrite (provider_restricted_path st domain req res Hsafe Hget Hreq).
  split; [| split; [| split; [| split]]].
  - destruct (getPermission_js st (origin domain) (req_method req)) as [[cap|]|[message]]
      eqn:Hp; [| done | done].
    split; [| done]. intros H. by apply executeMethod_not_unauthorized in H.
  - unfold getPermission_js, getPermission.
    destruct (getPermissionsForDomain_js st (origin domain)) as [l|] eqn:Hl.
    + rewrite <- (getPermissionsForDomain_js_Some _ _ _ Hl). split.
      * by intros [= ->].
      * by intros [_ ->].
    + split; [done | by intros [? _]].
  - apply getPermissionsForDomain_js_None.
  - intros message Hp. rewrite Hp. split; [| done].
    unfold getPermission_js in Hp. by destruct (getPermissionsForDomain_js st (origin domain)).
  - intros cap target Hp Hkey Htarget Hreg.
    apply getPermission_js_of_Some in Hp. rewrite Hp.
    unfold executeMethod. rewrite Hp. simpl.
    destruct (String.eqb_spec (getMethodKeyFor restrictedMethods (req_method req)) "");
      [done |].
    rewrite Htarget.
    destruct (caveats cap) as [[|c cs]|]; [by exists [] | | by exists []].
    destruct (push_caveats_registered (c :: cs) Hreg) as (pipeline & Hpush & Hlen).
    simpl in Hpush. rewrite Hpush. by exists pipeline.
Qed.

(** C3, as amended: when the authorizing capability carries a caveat under
    whose type the caveat table yields nothing that can be called with a
    result (any type but [filterParams], [filterResponse] and the inherited
    [constructor] and [toString]), building the pipeline throws: the call
    ends in a [TypeError] raised out of the middleware, the response is left
    as it was (no error value is set on it), and the restricted method is not
    run. *)
Theorem unregistered_caveat_throws (st : CapabilitiesState) (domain : IOriginMetadata)
    (req : JsonRpcRequest) (res : JsonRpcResponse)
    (cap : IOcapLdCapability) (cs : list IOcapLdCaveat) (target : JsFunction)
    (Hsafe : req_method req ∉ safeMethods)
    (Hget : req_method req <> methodPrefix +:+ "getPermissions")
    (Hreq : req_method req <> methodPrefix +:+ "requestPermissions")
    (Hcap : getPermission st (origin domain) (req_method req) = Some cap)
    (Hcs : caveats cap = Some cs)
    (Hunknown : Exists (fun c => caveatFnGens (caveat_type c) = None) cs)
    (Hkey : getMethodKeyFor restrictedMethods (req_method req) <> "")
    (Htarget : restrictedMethods !! getMethodKeyFor restrictedMethods (req_method req)
                 ≫= rm_method = Some target) :
  (exists c, c ∈ cs
             /\ caveatFnGens (caveat_type c) = None
             /\ provider st domain req res =
                  {| state_after := st; res_after := res;
                     control := Throws (caveatFnGen_error (caveat_type c)) |})
  /\ (forall pipeline key f,
         control (provider st domain req res) <> RunRestricted pipeline key f)
  /\ (forall err, control (provider st domain req res) <> CallEnd err)
  /\ error (res_after (provider st domain req res)) = error res
  /\ (forall type,
         caveatFnGens type = None
         <-> type ∉ ["filterParams"; "filterResponse"; "constructor"; "toString"]).
Proof.
  assert (Htable := caveatFnGens_None).
  rewrite (provider_restricted_path st domain req res Hsafe Hget Hreq).
  apply getPermission_js_of_Some in Hcap. rewrite Hcap.
  unfold executeMethod. rewrite Hcap. simpl.
  destruct (String.eqb_spec (getMethodKeyFor restrictedMethods (req_method req)) "");
    [done |].
  rewrite Htarget, Hcs.
  destruct cs as [|c cs']; [by apply Exists_nil in Hunknown |].
  destruct (push_caveats_unregistered _ Hunknown) as (c' & Hin & Hc' & Hpush).
  simpl in Hpush. rewrite Hpush. split; [| done]. by exists c'.
Qed.

End Routing.

(** ** Supporting facts on the subset check and on request validation *)

Lemma caveatEqual_eq (a b : IOcapLdCaveat) : caveatEqual a b = true <-> a = b.
Proof.
  unfold caveatEqual. destruct a as [ta va], b as [tb vb]. simpl.
  rewrite andb_true_iff, !bool_decide_eq_true. split.
  - by intros [-> ->].
  - by intros [= -> ->].
Qed.

(** What one round of the caveat comparison tests: equal lengths, and every
    requested caveat among the stored ones. *)
Lemma caveats_pass_spec (rc ec : list IOcapLdCaveat) :
  caveats_pass (Some rc) (Some ec) = true
  <-> length rc = length ec /\ forall r, r ∈ rc -> r ∈ ec.
Proof.
  unfold caveats_pass. destruct (Nat.eqb_spec (length rc) (length ec)) as [Hlen|Hlen]; simpl.
  - rewrite forallb_forall. split.
    + intros Hall. split; [done |]. intros r Hr.
      apply list_elem_of_In in Hr. apply Hall in Hr.
      apply existsb_exists in Hr as (e & He & Heq).
      apply caveatEqual_eq in Heq. subst e. by apply list_elem_of_In.
    + intros [_ Hall] r Hr. apply existsb_exists. exists r.
      split; [| by apply caveatEqual_eq].
      apply list_elem_of_In, Hall. by apply list_elem_of_In.
  - split; [done | by intros [? _]].
Qed.

(** Lists that are equal as multisets always pass. *)
Lemma caveats_pass_of_permutation (rc ec : list IOcapLdCaveat) :
  Permutation rc ec -> caveats_pass (Some rc) (Some ec) = true.
Proof.
  intros Hperm. apply caveats_pass_spec. split.
  - by apply Permutation_length.
  - intros r Hr. by rewrite <- Hperm.
Qed.

(** The payloads the validation does turn down, with the error as a value:
    no parameters, a first element that is no object by [typeof], an array,
    an object without keys. *)
Lemma invalid_payload_is_rejected (uuid : nat -> string) (st : CapabilitiesState)
    (metadata : IOriginMetadata) (req : JsonRpcRequest) (res : JsonRpcResponse) :
  truthy (params req) = false
  \/ typeof_object (js_index (params req) 0) = false
  \/ isArray (js_index (params req) 0) = true
  \/ js_index (params req) 0 = JObj [] ->
  requestPermissionsMiddleware uuid st metadata req res =
    {| state_after := st;
       res_after := set_error res (invalidReq (Some req));
       control := CallEnd (Some (invalidReq (Some req))) |}.
Proof.
  unfold requestPermissionsMiddleware, finalizePermissionsRequest.
  destruct (truthy (params req)); simpl; [| done].
  destruct (js_index (params req) 0) as [| |b|n|s|xs|[|p ps]]; simpl; try done;
    intros [H | [H | [H | H]]]; done.
Qed.

Example split_plugin : split underscore "plugin_foo_bar" = ["plugin"; "foo"; "bar"].
Proof. reflexivity. Qed.

Example accumulated_plugin :
  accumulated_prefixes "plugin_foo_bar" = ["plugin_"; "plugin_foo_"; "plugin_foo_bar_"].
Proof. reflexivity. Qed.

(** ** Scenarios *)

Lemma uuid0_nonempty (n : nat) : uuid0 n <> "".
Proof. done. Qed.

(** C1, counterexample: [plugin_foo_bar] resolves to the key [plugin_] and
    the origin holds the capability [plugin_], yet the call is answered
    [unauthorized]. *)
Lemma capability_for_key_is_not_enough :
  getMethodKeyFor plugin_methods "plugin_foo_bar" = "plugin_"
  /\ is_Some (getPermission holds_key "o1" "plugin_")
  /\ providerMiddlewareFunction [] plugin_methods "" uuid0 holds_key o1 plugin_call res0
     = {| state_after := holds_key;
          res_after := set_error res0 (unauthorized plugin_call);
          control := CallEnd (Some (unauthorized plugin_call)) |}.
Proof. split; [by vm_compute | split; [by eexists | by vm_compute]]. Qed.

(** C1 at a concrete call: [o1] holds the capability named [plugin_foo_bar]
    and its call runs the method registered as [plugin_]. *)
Lemma authorization_by_method_name_witness :
  (req_method plugin_call ∉ ([] : list string))
  /\ exists pipeline,
       length pipeline = 0
       /\ providerMiddlewareFunction [] plugin_methods "" uuid0 holds_method o1 plugin_call res0
          = {| state_after := holds_method; res_after := res0;
               control := RunRestricted pipeline "plugin_" (Fn 0) |}.
Proof.
  assert (Hsafe : req_method plugin_call ∉ ([] : list string)) by apply not_elem_of_nil.
  split; [exact Hsafe |].
  destruct (authorization_is_by_method_name [] plugin_methods "" uuid0
              holds_method o1 plugin_call res0 Hsafe) as (_ & _ & _ & _ & Hrun);
    [done | done |].
  apply (Hrun (Capability uuid0 now0 0 "plugin_foo_bar" None "o1") (Fn 0));
    [by vm_compute | by vm_compute | by vm_compute | by constructor].
Defined.

(** C3, counterexample: a capability with a caveat of an unregistered type
    makes the middleware throw; no error value is set on the response. *)
Lemma unregistered_caveat_is_no_error_value :
  caveatFnGens "requireFoo" = None
  /\ providerMiddlewareFunction [] account_methods "" uuid0
       (holds_with [caveat_unknown]) o1 read_accounts res0
     = {| state_after := holds_with [caveat_unknown];
          res_after := res0;
          control := Throws (TypeError "caveatFnGen is not a function") |}
  /\ error res0 = None.
Proof. split; [done | split; [by vm_compute | done]]. Qed.

(** C3 at a concrete call: a registered caveat followed by an unregistered
    one. *)
Lemma unregistered_caveat_throws_witness :
  Exists (fun c => caveatFnGens (caveat_type c) = None) [caveat_A; caveat_unknown]
  /\ exists c,
       c ∈ [caveat_A; caveat_unknown]
       /\ caveatFnGens (caveat_type c) = None
       /\ providerMiddlewareFunction [] account_methods "" uuid0
            (holds_with [caveat_A; caveat_unknown]) o1 read_accounts res0
          = {| state_after := holds_with [caveat_A; caveat_unknown];
               res_after := res0;
               control := Throws (caveatFnGen_error (caveat_type c)) |}.
Proof.
  assert (Hunknown : Exists (fun c => caveatFnGens (caveat_type c) = None)
                            [caveat_A; caveat_unknown]).
  { apply Exists_cons_tl, Exists_cons_hd. done. }
  split; [exact Hunknown |].
  destruct (unregistered_caveat_throws [] account_methods "" uuid0
              (holds_with [caveat_A; caveat_unknown]) o1 read_accounts res0
              (Capability uuid0 now0 0 "readAccounts" (Some [caveat_A; caveat_unknown]) "o1")
              [caveat_A; caveat_unknown] (Fn 1)) as [Hthrow _];
    [apply not_elem_of_nil | done | done | by vm_compute | done | exact Hunknown
    | by vm_compute | by vm_compute |].
  exact Hthrow.
Defined.

(** C5, counterexample: [_foo_bar] is no key, has an underscore after
    position 0, and its accumulated prefix [_foo_] is a key; the result is
    the empty string, because the first underscore stands at position 0. *)
Lemma leading_underscore_resolves_to_nothing :
  managedMethods_includes underscore_methods "_foo_bar" = false
  /\ String.get 4 "_foo_bar" = Some underscore
  /\ "_foo_" ∈ accumulated_prefixes "_foo_bar"
  /\ managedMethods_includes underscore_methods "_foo_" = true
  /\ getMethodKeyFor underscore_methods "_foo_bar" = "".
Proof.
  repeat split; try by vm_compute.
  unfold accumulated_prefixes. simpl. apply elem_of_cons. right. apply elem_of_cons. by left.
Qed.

(** C5 at a concrete method name. *)
Lemma getMethodKeyFor_resolution_witness :
  managedMethods_includes plugin_methods "plugin_foo_bar" = false
  /\ getMethodKeyFor plugin_methods "plugin_foo_bar" = "plugin_".
Proof.
  assert (Hm : managedMethods_includes plugin_methods "plugin_foo_bar" = false)
    by (by vm_compute).
  split; [exact Hm |].
  destruct (getMethodKeyFor_resolution plugin_methods "plugin_foo_bar")
    as (_ & Hprefix & _ & _).
  destruct Hprefix as [(p & Hp & Hin & Hman & _) | [_ Hnone]];
    [exact Hm | by exists 5 | by vm_compute | |].
  - rewrite Hp. unfold accumulated_prefixes in Hin. simpl in Hin.
    apply elem_of_cons in Hin as [-> | Hin]; [done |].
    apply elem_of_cons in Hin as [-> | Hin]; [by vm_compute in Hman |].
    apply elem_of_cons in Hin as [-> | Hin]; [by vm_compute in Hman |].
    by apply elem_of_nil in Hin.
  - specialize (Hnone "plugin_"). unfold accumulated_prefixes in Hnone. simpl in Hnone.
    assert (Hkey : managedMethods_includes plugin_methods "plugin_" = false).
    { apply Hnone. apply elem_of_cons. by left. }
    by vm_compute in Hkey.
Defined.

(** C2, at the failing input: the stored caveats are [A; B], the request
    asks for [A; A]; both lists are in canonical order and they are not
    equal as multisets, yet [hasPermissions] answers [true]. *)
Lemma hasPermissions_accepts_repeated_caveat :
  sortCaveats [caveat_A; caveat_A] = [caveat_A; caveat_A]
  /\ sortCaveats [caveat_A; caveat_B] = [caveat_A; caveat_B]
  /\ getPermission (holds_with [caveat_A; caveat_B]) "o1" "readAccounts"
     = Some (Capability uuid0 now0 0 "readAccounts" (Some [caveat_A; caveat_B]) "o1")
  /\ hasPermissions (holds_with [caveat_A; caveat_B]) "o1"
       [("readAccounts", {| requested_caveats := Some [caveat_A; caveat_A] |})] = true
  /\ ~ Permutation [caveat_A; caveat_A] [caveat_A; caveat_B].
Proof.
  repeat split; try by vm_compute.
  intros Hperm. symmetry in Hperm.
  assert (Hin : In caveat_B [caveat_A; caveat_A]).
  { eapply Permutation_in; [exact Hperm |]. right. by left. }
  destruct Hin as [H | [H | []]]; discriminate H.
Qed.

(** C4, at the failing input: a first parameter [null] passes the [typeof]
    test and [Object.keys] throws on it; a descriptor [null] inside a
    non-empty object throws where its caveats are read. Neither call sets an
    error on the response. *)
Lemma null_payload_throws :
  requestPermissionsMiddleware uuid0 fresh_state o1 (ask (JArr [JNull])) res0
  = {| state_after := fresh_state; res_after := res0;
       control := Throws (TypeError "cannot convert undefined or null to object") |}
  /\ requestPermissionsMiddleware uuid0 fresh_state o1
       (ask (JArr [JObj [("readContacts", JNull)]])) res0
     = {| state_after := fresh_state; res_after := res0;
          control := Throws (TypeError "cannot read property of null or undefined") |}
  /\ providerMiddlewareFunction [] contacts_methods "" uuid0 fresh_state o1
       (ask (JArr [JNull])) res0
     = {| state_after := fresh_state; res_after := res0;
          control := Throws (TypeError "cannot convert undefined or null to object") |}.
Proof. repeat split; by vm_compute. Qed.

(** C6 at a method that is both safe and restricted. *)
Lemma routing_priority_witness :
  "plugin_" ∈ ["plugin_"]
  /\ is_Some (plugin_methods !! "plugin_")
  /\ providerMiddlewareFunction ["plugin_"] plugin_methods "" uuid0 fresh_state o1
       {| req_method := "plugin_"; params := JArr [] |} res0
     = {| state_after := fresh_state; res_after := res0; control := CallNext |}.
Proof.
  assert (Hsafe : "plugin_" ∈ ["plugin_"]) by (apply elem_of_cons; by left).
  split; [exact Hsafe |]. split; [by eexists |].
  destruct (routing_priority ["plugin_"] plugin_methods "" uuid0 fresh_state o1
              {| req_method := "plugin_"; params := JArr [] |} res0) as [Hnext _].
  exact (Hnext Hsafe).
Defined.

(** C7 at a first request of [o1], approved as asked. *)
Lemma pending_request_is_removed_witness :
  control (requestPermissionsMiddleware uuid0 fresh_state o1
             (ask (JArr [JObj [("readContacts", JObj [])]])) res0)
  = AwaitApproval pending0
  /\ pending0 ∉ permissionsRequests
       (state_after
          (approval_settled contacts_methods uuid0 now0
             (state_after (requestPermissionsMiddleware uuid0 fresh_state o1
                             (ask (JArr [JObj [("readContacts", JObj [])]])) res0))
             pending0 res0 (Resolved [("readContacts", no_caveats)]))).
Proof.
  assert (Hprompt : control (requestPermissionsMiddleware uuid0 fresh_state o1
                               (ask (JArr [JObj [("readContacts", JObj [])]])) res0)
                    = AwaitApproval pending0) by (by vm_compute).
  split; [exact Hprompt |].
  destruct (pending_request_is_removed contacts_methods uuid0 now0 uuid0_nonempty
              fresh_state o1 (ask (JArr [JObj [("readContacts", JObj [])]])) res0
              pending0 Hprompt) as (_ & _ & Hgone).
  by apply (Hgone _ res0 (Resolved [("readContacts", no_caveats)]) _ eq_refl).
Defined.

(** C9 at the removal of the only capability of [o1]. *)
Lemma store_has_no_empty_domain_witness :
  no_empty_domain holds_key
  /\ getDomains (removePermissionsFor holds_key "o1"
                   [Capability uuid0 now0 7 "plugin_" None "elsewhere"]) !! "o1" = None.
Proof.
  assert (Hinv : no_empty_domain holds_key).
  { intros d e. unfold holds_key, state_of. simpl. intros He.
    apply lookup_singleton_Some in He as [_ <-]. done. }
  split; [exact Hinv |].
  destruct (store_has_no_empty_domain uuid0 now0 holds_key Hinv) as (_ & _ & Hrem & _).
  destruct (Hrem "o1" [Capability uuid0 now0 7 "plugin_" None "elsewhere"]) as [_ Hlast].
  apply Hlast. intros p Hp. eexists. split; [apply elem_of_cons; by left |].
  unfold holds_key, state_of, getPermissionsForDomain in Hp. simpl in Hp.
  rewrite lookup_singleton_eq in Hp. simpl in Hp.
  apply list_elem_of_singleton in Hp. by subst p.
Defined.

(** C9 without the assumption: [getDomainSettings] asked about the unknown
    origin [o2] writes an empty entry for it, and the store operations on
    [o1] that follow leave that entry in the registry. *)
Lemma empty_entry_survives_store_operations :
  getDomains
    (setDomain (getDomainSettings holds_key "o2").2 "o1"
       {| permissions := [Capability uuid0 now0 1 "readContacts" None "o1"] |}) !! "o2"
  = Some {| permissions := [] |}
  /\ getDomains
       (addPermissionsFor uuid0 now0 (getDomainSettings holds_key "o2").2 "o1"
          [("readContacts", Capability uuid0 now0 1 "readContacts" None "o1")]) !! "o2"
     = Some {| permissions := [] |}
  /\ getDomains
       (removePermissionsFor (getDomainSettings holds_key "o2").2 "o1"
          [Capability uuid0 now0 0 "plugin_" None "o1"]) !! "o2"
     = Some {| permissions := [] |}
  /\ ~ no_empty_domain
       (setDomain (getDomainSettings holds_key "o2").2 "o1"
          {| permissions := [Capability uuid0 now0 1 "readContacts" None "o1"] |}).
Proof.
  assert (Hkept : getDomains
            (setDomain (getDomainSettings holds_key "o2").2 "o1"
               {| permissions := [Capability uuid0 now0 1 "readContacts" None "o1"] |}) !! "o2"
          = Some {| permissions := [] |}) by (by vm_compute).
  split; [exact Hkept |]. split; [by vm_compute |]. split; [by vm_compute |].
  intros Hinv. by apply (Hinv "o2" {| permissions := [] |} Hkept).
Qed.

(** C10 at a supplied capability with a forged invoker, id and date. *)
Lemma addPermissionsFor_witness :
  getPermissionsForDomain
    (addPermissionsFor uuid0 now0 holds_key "o1"
       [("readContacts",
         {| context := []; parentCapability := "readContacts"; caveats := None;
            cap_id := "forged"; date := 0; invoker := "someone else" |})]) "o1"
  = [Capability uuid0 now0 0 "plugin_" None "o1";
     Capability uuid0 now0 1 "readContacts" None "o1"].
Proof.
  destruct (addPermissionsFor_stamps_new_capabilities uuid0 now0 holds_key "o1"
              [("readContacts",
                {| context := []; parentCapability := "readContacts"; caveats := None;
                   cap_id := "forged"; date := 0; invoker := "someone else" |})])
    as [Hstored _].
  rewrite Hstored. by vm_compute.
Defined.

(** * Further properties *)

(** ** Method keys *)

Section MoreMethodKeys.

Variable restrictedMethods : gmap string RestrictedMethod.

Abbreviation managed := (managedMethods_includes restrictedMethods).
Abbreviation keyFor := (getMethodKeyFor restrictedMethods).

Lemma string_app_cons (x : ascii) (a b : string) : String x a +:+ b = String x (a +:+ b).
Proof. reflexivity. Qed.

Lemma string_app_nil (b : string) : "" +:+ b = b.
Proof. reflexivity. Qed.

Lemma string_app_assoc (a b c : string) : (a +:+ b) +:+ c = a +:+ (b +:+ c).
Proof.
  induction a as [|x a IH]; [by rewrite !string_app_nil |].
  rewrite !string_app_cons. by f_equal.
Qed.

(** Joining what [split] returns gives the string back, with one more
    underscore at the end. *)
Lemma join_split (s : string) : join_segments (split underscore s) = s +:+ "_".
Proof.
  induction s as [|a s IH]; [done |]. simpl.
  destruct (Ascii.eqb a underscore) eqn:Ha.
  - apply Ascii.eqb_eq in Ha. subst a. simpl. by rewrite IH.
  - destruct (split underscore s) as [|seg rest]; simpl in *.
    + destruct s; discriminate IH.
    + rewrite !string_app_cons. f_equal. exact IH.
Qed.

Lemma accumulated_is_prefix (segments : list string) (m q : string) :
  q ∈ accumulated_from m segments ->
  exists rest, m +:+ join_segments segments = q +:+ rest.
Proof.
  revert m. induction segments as [|seg segs IH]; intros m Hq; simpl in Hq.
  - by apply elem_of_nil in Hq.
  - apply elem_of_cons in Hq as [-> | Hq].
    + exists (join_segments segs). simpl. by rewrite !string_app_assoc.
    + destruct (IH _ Hq) as [rest Hrest]. exists rest. rewrite <- Hrest.
      simpl. by rewrite !string_app_assoc.
Qed.

Lemma shift_segments_cases (segments : list string) (m : string) :
  shift_segments restrictedMethods segments m = m
  \/ shift_segments restrictedMethods segments m ∈ accumulated_from m segments.
Proof.
  revert m. induction segments as [|seg segs IH]; intros m; simpl; [by left |].
  destruct (managed m); [by left |]. right.
  destruct (IH (m +:+ seg +:+ "_")) as [-> | Hin].
  - apply elem_of_cons. by left.
  - apply elem_of_cons. by right.
Qed.

(** X1: [getMethodKeyFor] returns the empty string or a key of the restricted
    methods, never anything else, so [executeMethod] can read the entry under
    a non-empty result; resolving a result again gives the same result. *)
Theorem getMethodKeyFor_is_key_or_empty (method : string) :
  (getMethodKeyFor restrictedMethods method = ""
   \/ managedMethods_includes restrictedMethods
        (getMethodKeyFor restrictedMethods method) = true)
  /\ getMethodKeyFor restrictedMethods (getMethodKeyFor restrictedMethods method)
     = getMethodKeyFor restrictedMethods method.
Proof.
  assert (Hcases : keyFor method = "" \/ managed (keyFor method) = true).
  { unfold getMethodKeyFor. destruct (managed method) eqn:Hm; [by right |].
    destruct (indexOf underscore method) as [[|n]|]; [by left | | by left].
    destruct (managed (shift_segments _ _ _)) eqn:Hs; [by right | by left]. }
  split; [exact Hcases |].
  destruct Hcases as [-> | Hkey].
  - unfold getMethodKeyFor. simpl. by destruct (managed "").
  - unfold getMethodKeyFor at 1. by rewrite Hkey.
Qed.

Lemma string_app_empty (a b : string) : a +:+ b = "" -> a = "" /\ b = "".
Proof. destruct a; [by rewrite string_app_nil | by rewrite string_app_cons]. Qed.

Lemma string_app_nil_r (a : string) : a +:+ "" = a.
Proof.
  induction a as [|x a IH]; [by rewrite string_app_nil |].
  rewrite string_app_cons. by f_equal.
Qed.

Lemma prefix_before_last (m k r : string) :
  m +:+ "_" = k +:+ r -> r <> "" -> exists rest, m = k +:+ rest.
Proof.
  revert m. induction k as [|a k IH]; intros m Heq Hr.
  - exists m. by rewrite string_app_nil.
  - rewrite string_app_cons in Heq. destruct m as [|b m].
    + rewrite string_app_nil in Heq. injection Heq as _ Heq.
      symmetry in Heq. apply string_app_empty in Heq as [_ ->]. done.
    + rewrite string_app_cons in Heq. injection Heq as -> Heq.
      destruct (IH m Heq Hr) as [rest ->]. exists rest. by rewrite string_app_cons.
Qed.

(** X2: what [getMethodKeyFor] returns is the beginning of the method name,
    or the method name followed by one underscore: a method name [a_b] may
    resolve to the namespace key [a_b_], and to no key that departs from its
    characters. *)
Theorem getMethodKeyFor_is_prefix (method : string) :
  (exists rest, method = getMethodKeyFor restrictedMethods method +:+ rest)
  \/ getMethodKeyFor restrictedMethods method = method +:+ "_".
Proof.
  assert (Hempty : exists rest, method = "" +:+ rest)
    by (exists method; by rewrite string_app_nil).
  unfold getMethodKeyFor. destruct (managed method).
  { left. exists "". by rewrite string_app_nil_r. }
  destruct (indexOf underscore method) as [[|n]|]; try by left.
  destruct (managed (shift_segments _ _ _)); [| by left].
  destruct (shift_segments_cases (split underscore method) "") as [-> | Hin]; [by left |].
  apply accumulated_is_prefix in Hin as [rest Hrest].
  simpl in Hrest. rewrite join_split in Hrest.
  destruct rest as [|c rest].
  - right. by rewrite string_app_nil_r in Hrest.
  - left. by apply (prefix_before_last _ _ (String c rest)).
Qed.

End MoreMethodKeys.

(** ** The subset check *)

Lemma assoc_Some_elem_of {A : Type} (k : string) (v : A) (ps : list (string * A)) :
  assoc k ps = Some v -> (k, v) ∈ ps.
Proof.
  induction ps as [|[k' v'] rest IH]; simpl; [done |].
  destruct (String.eqb_spec k' k) as [->|_].
  - intros [= ->]. apply elem_of_cons. by left.
  - intros H. apply elem_of_cons. right. by apply IH.
Qed.

Lemma assoc_of_elem_of {A : Type} (k : string) (v : A) (ps : list (string * A)) :
  NoDup ps.*1 -> (k, v) ∈ ps -> assoc k ps = Some v.
Proof.
  induction ps as [|[k' v'] rest IH]; intros Hnd Hin; [by apply elem_of_nil in Hin |].
  rewrite fmap_cons in Hnd. apply NoDup_cons in Hnd as [Hk' Hnd]. simpl in *.
  apply elem_of_cons in Hin as [[= -> ->] | Hin].
  - by rewrite String.eqb_refl.
  - destruct (String.eqb_spec k' k) as [->|_]; [| by apply IH].
    exfalso. apply Hk'. apply list_elem_of_fmap. by exists (k, v).
Qed.

Lemma assoc_is_Some {A : Type} (k : string) (ps : list (string * A)) :
  k ∈ ps.*1 -> is_Some (assoc k ps).
Proof.
  induction ps as [|[k' v'] rest IH]; intros Hin; [by apply elem_of_nil in Hin |].
  simpl. destruct (String.eqb_spec k' k) as [->|Hne]; [by eexists |].
  rewrite fmap_cons in Hin. apply elem_of_cons in Hin as [Heq | Hin]; [| by apply IH].
  simpl in Heq. congruence.
Qed.

(** The table [hasPermissions] builds holds, under each method name, the
    last capability of that name. *)
Lemma existing_by_method_lookup (perms : list IOcapLdCapability) (m : string) :
  existing_by_method perms !! m = last (named m perms).
Proof.
  unfold existing_by_method, named.
  assert (Hgen : forall acc : gmap string IOcapLdCapability,
             foldl (fun acc perm => <[parentCapability perm := perm]> acc) acc perms !! m
             = match last (filter (fun p => parentCapability p = m) perms) with
               | Some c => Some c
               | None => acc !! m
               end).
  { induction perms as [|p rest IH]; intros acc; simpl; [done |].
    rewrite IH. destruct (decide (parentCapability p = m)) as [Hp|Hp].
    - rewrite filter_cons_True by done. rewrite last_cons.
      destruct (last (filter _ rest)); [done |]. rewrite <- Hp. apply lookup_insert_eq.
    - rewrite filter_cons_False by done.
      destruct (last (filter _ rest)); [done |]. by apply lookup_insert_ne. }
  rewrite Hgen. destruct (last _); [done | apply lookup_empty].
Qed.


Lemma hasPermissions_elim (st : CapabilitiesState) (d : string)
    (requests : IRequestedPermissions) (k : string) :
  hasPermissions st d requests = true -> k ∈ requests.*1 ->
  exists r, assoc k requests = Some r
            /\ ((exists cap, last (named k (getPermissionsForDomain st d)) = Some cap
                             /\ caveats_pass (requested_caveats r) (caveats cap) = true)
                \/ (named k (getPermissionsForDomain st d) = []
                    /\ inherited k = true
                    /\ requested_caveats r = None)).
Proof.
  unfold hasPermissions. intros H Hk.
  destruct (forallb _ requests.*1) eqn:H1 in H; simpl in H; [| done].
  rewrite forallb_forall in H, H1. apply list_elem_of_In in Hk.
  specialize (H k Hk). specialize (H1 k Hk).
  rewrite existing_by_method_lookup in H, H1.
  destruct (assoc k requests) as [r|]; [| done]. exists r. split; [done |].
  destruct (last (named k (getPermissionsForDomain st d))) as [cap|] eqn:Hlast.
  - left. by exists cap.
  - right. apply last_None in Hlast. simpl in H.
    repeat split; [done | | by destruct (requested_caveats r)].
    apply orb_true_iff in H1. destruct H1 as [H1 | H1]; [| done].
    apply bool_decide_eq_true in H1. by destruct H1.
Qed.

(** X3: [hasPermissions] returns true exactly when the origin's permissions
    are a list and every requested method either has a stored capability of
    its name, the last of which passes the caveat comparison, or has none
    but names a member of [Object.prototype] and is requested without
    caveats. (The request is an object: its method names are distinct. A
    stored capability named [__proto__] would replace the prototype of the
    table and is excluded.) *)
Theorem hasPermissions_checks_last_capability (st : CapabilitiesState) (d : string)
    (requests : IRequestedPermissions) (Hkeys : NoDup requests.*1)
    (Hproto : "__proto__" ∉ parentCapability <$> getPermissionsForDomain st d) :
  hasPermissions_js st d requests = Normal true
  <-> getPermissionsForDomain_js st d <> None
      /\ forall m r, (m, r) ∈ requests ->
           (exists cap, last (named m (getPermissionsForDomain st d)) = Some cap
                        /\ caveats_pass (requested_caveats r) (caveats cap) = true)
           \/ (named m (getPermissionsForDomain st d) = []
               /\ inherited m = true
               /\ requested_caveats r = None).
Proof.
  unfold hasPermissions_js.
  destruct (getPermissionsForDomain_js st d) as [l|]; [| split; [done | by intros [? _]]].
  split.
  - intros [= H]. split; [done |]. intros m r Hin.
    destruct (hasPermissions_elim st d requests m H) as (r' & Hr & Hcase).
    { apply list_elem_of_fmap. by exists (m, r). }
    rewrite (assoc_of_elem_of m r requests Hkeys Hin) in Hr. by injection Hr as <-.
  - intros [_ Hall]. f_equal. unfold hasPermissions.
    assert (H1 : forallb (fun k => bool_decide
                  (is_Some (existing_by_method (getPermissionsForDomain st d) !! k))
                  || inherited k)
                requests.*1 = true).
    { apply forallb_forall. intros k Hk. apply list_elem_of_In in Hk.
      destruct (assoc_is_Some k requests Hk) as [r Hr].
      destruct (Hall k r (assoc_Some_elem_of _ _ _ Hr)) as [(cap & Hcap & _) | (_ & Hk' & _)].
      - apply orb_true_iff. left. apply bool_decide_eq_true.
        rewrite existing_by_method_lookup. by eexists.
      - by rewrite Hk', orb_true_r. }
    rewrite H1. simpl. apply forallb_forall. intros k Hk. apply list_elem_of_In in Hk.
    destruct (assoc_is_Some k requests Hk) as [r Hr]. rewrite Hr.
    rewrite existing_by_method_lookup.
    destruct (Hall k r (assoc_Some_elem_of _ _ _ Hr))
      as [(cap & -> & Hpass) | (Hnone & _ & ->)]; [done |].
    by rewrite Hnone.
Qed.

(** X4: for a requested caveat list without repeated caveats, the caveat
    comparison of [hasPermissions] holds exactly when the requested and the
    stored list are equal as multisets. *)
Theorem caveats_pass_without_repeats (rc ec : list IOcapLdCaveat) (Hnd : NoDup rc) :
  caveats_pass (Some rc) (Some ec) = true <-> Permutation rc ec.
Proof.
  split; [| apply caveats_pass_of_permutation].
  intros [Hlen Hincl]%caveats_pass_spec.
  apply submseteq_length_Permutation; [| lia].
  by apply NoDup_submseteq.
Qed.

(** ** Revoking and granting *)

Section MoreStore.

Variable restrictedMethods : gmap string RestrictedMethod.
Variable uuid : nat -> string.
Variable now : nat -> Z.

Lemma getPermissionsForDomain_setDomain_other (st : CapabilitiesState) (d d' : string)
    (e : RpcCapDomainEntry) :
  d <> d' -> getPermissionsForDomain (setDomain st d e) d' = getPermissionsForDomain st d'.
Proof.
  intros Hne. unfold getPermissionsForDomain.
  fold (getDomains (setDomain st d e)). fold (getDomains st).
  by rewrite setDomain_lookup, decide_False.
Qed.

Lemma getPermissionsForDomain_getDomainSettings (st : CapabilitiesState) (d d' : string) :
  getPermissionsForDomain (getDomainSettings st d).2 d' = getPermissionsForDomain st d'.
Proof.
  unfold getPermissionsForDomain, getDomainSettings.
  fold (getDomains st). destruct (getDomains st !! d) eqn:Hd; [done |]. simpl.
  unfold getDomains in *. destruct (domains st) as [ds|] eqn:E; simpl in *; [| by rewrite E].
  destruct (decide (d = d')) as [<-|Hne].
  - by rewrite lookup_insert_eq, Hd.
  - by rewrite lookup_insert_ne.
Qed.

Lemma getPermissionsForDomain_after_draws (k : nat) (st : CapabilitiesState) (d : string) :
  getPermissionsForDomain (after_draws k st) d = getPermissionsForDomain st d.
Proof. done. Qed.

(** The filter of [removePermissionsFor] keeps a capability exactly when no
    capability to remove has its name. *)
Lemma keeps_iff (gone : list IOcapLdCapability) (perm : IOcapLdCapability) :
  forallb (fun r => negb (String.eqb (parentCapability r) (parentCapability perm))) gone = true
  <-> parentCapability perm ∉ parentCapability <$> gone.
Proof.
  rewrite forallb_forall. split.
  - intros Hall Hin. apply list_elem_of_fmap in Hin as (r & Heq & Hr).
    apply list_elem_of_In in Hr. specialize (Hall r Hr).
    rewrite <- Heq, String.eqb_refl in Hall. done.
  - intros Hnot r Hr. destruct (String.eqb_spec (parentCapability r) (parentCapability perm))
      as [Heq|]; [| done].
    exfalso. apply Hnot. apply list_elem_of_fmap. exists r. split; [done |].
    by apply list_elem_of_In.
Qed.

Lemma removePermissionsFor_permissions (st : CapabilitiesState) (d : string)
    (gone : list IOcapLdCapability) :
  getPermissionsForDomain (removePermissionsFor st d gone) d
  = filter (fun perm => parentCapability perm ∉ parentCapability <$> gone)
           (getPermissionsForDomain st d).
Proof.
  unfold removePermissionsFor.
  pose proof (getDomainSettings_permissions st d) as Hp.
  destruct (getDomainSettings st d) as [domain st0]. simpl in Hp.
  rewrite getPermissionsForDomain_setDomain. simpl. rewrite Hp.
  apply list_filter_iff. intros perm. apply keeps_iff.
Qed.




Lemma addPermissionsFor_other (st : CapabilitiesState) (d d' : string)
    (news : list (string * IOcapLdCapability)) :
  d <> d' ->
  getPermissionsForDomain (addPermissionsFor uuid now st d news) d'
  = getPermissionsForDomain st d'.
Proof.
  intros Hne. rewrite addPermissionsFor_unfold.
  rewrite getPermissionsForDomain_setDomain_other by done.
  rewrite getPermissionsForDomain_after_draws.
  apply getPermissionsForDomain_getDomainSettings.
Qed.

Lemma addPermissionsFor_requests (st : CapabilitiesState) (d : string)
    (news : list (string * IOcapLdCapability)) :
  permissionsRequests (addPermissionsFor uuid now st d news) = permissionsRequests st.
Proof.
  rewrite addPermissionsFor_unfold. simpl. apply getDomainSettings_frame.
Qed.

Lemma build_permissions_state (domain : string) (approved : IRequestedPermissions)
    (acc : list (string * IOcapLdCapability)) (st : CapabilitiesState) :
  (build_permissions uuid now domain approved acc st).2 = after_draws (length approved) st.
Proof.
  revert acc st. induction approved as [|[m r] rest IH]; intros acc st; simpl.
  - by destruct st.
  - rewrite IH. unfold after_draws, drawn. simpl. f_equal. lia.
Qed.

(** X6: [grantNewPermissions], whatever is approved and whether or not it
    succeeds, changes neither the permissions of another origin nor the queue
    of pending requests. *)
Theorem grantNewPermissions_touches_one_origin (st : CapabilitiesState) (domain : string)
    (approved : IRequestedPermissions) (res : JsonRpcResponse) :
  (forall d', domain <> d' ->
     getPermissionsForDomain
       (state_after (grantNewPermissions restrictedMethods uuid now st domain approved res)) d'
     = getPermissionsForDomain st d')
  /\ permissionsRequests
       (state_after (grantNewPermissions restrictedMethods uuid now st domain approved res))
     = permissionsRequests st.
Proof.
  unfold grantNewPermissions. destruct (existsb _ approved); [done |].
  pose proof (build_permissions_state domain approved [] st) as Hst.
  destruct (build_permissions uuid now domain approved [] st) as [perms st1].
  simpl in *. subst st1. split.
  - intros d' Hne. by rewrite addPermissionsFor_other.
  - by rewrite addPermissionsFor_requests.
Qed.

End MoreStore.

Section GrantRoundTrip.

Variable restrictedMethods : gmap string RestrictedMethod.
Variable uuid : nat -> string.
Variable now : nat -> Z.

Lemma fresh_names (grantee : string) (n : nat) (news : list (string * IOcapLdCapability)) :
  parentCapability <$> fresh_capabilities uuid now grantee n news
  = (fun x => parentCapability x.2) <$> news.
Proof.
  revert n. induction news as [|[k p] rest IH]; intros n; [done |].
  simpl. by rewrite IH.
Qed.

Lemma built_names (domain : string) (n : nat) (approved : IRequestedPermissions) :
  (fun x => parentCapability x.2) <$> built uuid now domain n approved = approved.*1.
Proof.
  revert n. induction approved as [|[m r] rest IH]; intros n; [done |].
  simpl. by rewrite IH.
Qed.

Lemma named_unique (l : list IOcapLdCapability) (i : nat) (c : IOcapLdCapability) :
  NoDup (parentCapability <$> l) -> l !! i = Some c -> named (parentCapability c) l = [c].
Proof.
  unfold named. revert i. induction l as [|x l IH]; intros i Hnd Hi; [done |].
  rewrite fmap_cons in Hnd. apply NoDup_cons in Hnd as [Hx Hnd].
  destruct i as [|i]; simpl in Hi.
  - injection Hi as ->. rewrite filter_cons_True by done. f_equal.
    apply filter_none. apply Forall_forall. intros y Hy Heq. apply Hx.
    rewrite <- Heq. apply list_elem_of_fmap. by exists y.
  - rewrite filter_cons_False; [by apply (IH i) |].
    intros Heq. apply Hx. rewrite Heq. apply list_elem_of_fmap. exists c.
    split; [done |]. apply list_elem_of_lookup. by exists i.
Qed.

Lemma all_resolve (approved : IRequestedPermissions) :
  (forall m, m ∈ approved.*1 -> getMethodKeyFor restrictedMethods m <> "") ->
  existsb (fun '(methodName, _) =>
             String.eqb (getMethodKeyFor restrictedMethods methodName) "") approved = false.
Proof.
  intros Hall. apply not_true_is_false. intros Hex.
  apply existsb_exists in Hex as ([m r] & Hin & Hm). apply String.eqb_eq in Hm.
  apply (Hall m); [| done]. apply list_elem_of_fmap. exists (m, r).
  split; [done | by apply list_elem_of_In].
Qed.

(** What a grant leaves under the origin: the capabilities of the methods
    that were not approved, then one new capability per approved method. *)
Lemma grantNewPermissions_permissions (st : CapabilitiesState) (domain : string)
    (approved : IRequestedPermissions) (res : JsonRpcResponse) :
  NoDup approved.*1 ->
  (forall m, m ∈ approved.*1 -> getMethodKeyFor restrictedMethods m <> "") ->
  getPermissionsForDomain
    (state_after (grantNewPermissions restrictedMethods uuid now st domain approved res)) domain
  = (filter (fun oldPerm => parentCapability oldPerm ∉ approved.*1)
            (getPermissionsForDomain st domain)
       ++ fresh_capabilities uuid now domain (draws st + length approved)
            (built uuid now domain (draws st) approved))%list.
Proof.
  intros Hnd Hall. unfold grantNewPermissions. rewrite (all_resolve approved Hall).
  rewrite build_permissions_spec; [| done |].
  2:{ intros k _ Hin. by apply elem_of_nil in Hin. }
  simpl. rewrite addPermissionsFor_unfold, getPermissionsForDomain_setDomain. simpl.
  rewrite built_keys. f_equal. f_equal. lia.
Qed.

Lemma granted_lookup (st : CapabilitiesState) (domain : string)
    (approved : IRequestedPermissions) (i : nat) (m : string) (r : IRequestedPermission) :
  approved !! i = Some (m, r) ->
  fresh_capabilities uuid now domain (draws st + length approved)
    (built uuid now domain (draws st) approved) !! i
  = Some (Capability uuid now (draws st + length approved + i) m (requested_caveats r) domain).
Proof.
  intros Hi.
  apply (fresh_capabilities_lookup uuid now domain _ i _ m
           (Capability uuid now (draws st + i) m (requested_caveats r) domain)).
  by apply built_lookup.
Qed.

(** After a grant, the capabilities of the name of an approved method are
    the new one alone. *)
Lemma granted_named (st : CapabilitiesState) (domain : string)
    (approved : IRequestedPermissions) (res : JsonRpcResponse)
    (i : nat) (m : string) (r : IRequestedPermission) :
  NoDup approved.*1 ->
  (forall k, k ∈ approved.*1 -> getMethodKeyFor restrictedMethods k <> "") ->
  approved !! i = Some (m, r) ->
  named m (getPermissionsForDomain
             (state_after (grantNewPermissions restrictedMethods uuid now st domain approved res))
             domain)
  = [Capability uuid now (draws st + length approved + i) m (requested_caveats r) domain].
Proof.
  intros Hnd Hall Hi. rewrite grantNewPermissions_permissions by done.
  unfold named. rewrite filter_app, list_filter_filter.
  rewrite filter_none.
  2:{ apply Forall_forall. intros p _ [Hp Hkeep]. apply Hkeep. rewrite Hp.
      apply list_elem_of_fmap. exists (m, r). split; [done |].
      apply list_elem_of_lookup. by exists i. }
  simpl.
  apply (named_unique _ i
           (Capability uuid now (draws st + length approved + i) m (requested_caveats r) domain)).
  - by rewrite fresh_names, built_names.
  - by apply granted_lookup.
Qed.


(** X7: after a successful grant, [getPermission] for an approved method
    returns the capability just granted, with the approved caveats: an older
    capability of that name is replaced. *)
Theorem getPermission_after_grant (st : CapabilitiesState) (domain : string)
    (approved : IRequestedPermissions) (res : JsonRpcResponse)
    (i : nat) (m : string) (r : IRequestedPermission)
    (Hkeys : NoDup approved.*1)
    (Hknown : forall k, k ∈ approved.*1 -> getMethodKeyFor restrictedMethods k <> "")
    (Hi : approved !! i = Some (m, r)) :
  getPermission
    (state_after (grantNewPermissions restrictedMethods uuid now st domain approved res))
    domain m
  = Some (Capability uuid now (draws st + length approved + i) m (requested_caveats r) domain).
Proof.
  unfold getPermission.
  pose proof (granted_named st domain approved res i m r Hkeys Hknown Hi) as Hnamed.
  unfold named in Hnamed. by rewrite Hnamed.
Qed.



(** X9: an origin that holds at most one capability per method name still
    does after [grantNewPermissions] (for the distinct method names of an
    approval) and after [removePermissionsFor]. *)
Theorem unique_methods_preserved (st : CapabilitiesState) (domain : string)
    (Huniq : unique_methods st domain) :
  (forall approved res,
      NoDup approved.*1 ->
      unique_methods
        (state_after (grantNewPermissions restrictedMethods uuid now st domain approved res))
        domain)
  /\ (forall gone, unique_methods (removePermissionsFor st domain gone) domain).
Proof.
  unfold unique_methods in *. split.
  - intros approved res Hnd.
    destruct (existsb (fun '(methodName, _) =>
                String.eqb (getMethodKeyFor restrictedMethods methodName) "") approved) eqn:Hex.
    { unfold grantNewPermissions. by rewrite Hex. }
    rewrite grantNewPermissions_permissions; [| done |].
    2:{ intros m Hm Hkey. apply list_elem_of_fmap in Hm as ([m' r] & -> & Hin).
        assert (Ht : existsb (fun '(methodName, _) =>
                       String.eqb (getMethodKeyFor restrictedMethods methodName) "")
                       approved = true); [| congruence].
        apply existsb_exists. exists (m', r). split; [by apply list_elem_of_In |].
        by apply String.eqb_eq. }
    rewrite fmap_app, fresh_names, built_names. apply NoDup_app. split; [| split].
    + eapply sublist_NoDup; [exact Huniq | apply fmap_sublist, sublist_filter].
    + intros m Hm. apply list_elem_of_fmap in Hm as (p & -> & Hp).
      by apply list_elem_of_filter in Hp as [Hp _].
    + done.
  - intros gone. rewrite removePermissionsFor_permissions.
    eapply sublist_NoDup; [exact Huniq | apply fmap_sublist, sublist_filter].
Qed.

End GrantRoundTrip.


(** ** Requests and approvals *)

Section MoreWorkflow.

Variable restrictedMethods : gmap string RestrictedMethod.
Variable uuid : nat -> string.
Variable now : nat -> Z.

Lemma finalizePermissionsRequest_false (req req1 : JsonRpcRequest)
    (res res1 : JsonRpcResponse) :
  finalizePermissionsRequest req res = Normal (false, req1, res1) ->
  req1 = req /\ res1 = set_error res (invalidReq (Some req)).
Proof.
  unfold finalizePermissionsRequest.
  destruct (truthy (params req)); simpl; [| by intros [= <- <-]].
  destruct (typeof_object (js_index (params req) 0)); simpl; [| by intros [= <- <-]].
  destruct (isArray (js_index (params req) 0)); simpl; [by intros [= <- <-] |].
  destruct (object_keys (js_index (params req) 0)) as [keys|e]; simpl; [| done].
  destruct (Nat.eqb (length keys) 0); [by intros [= <- <-] |].
  destruct (js_index (params req) 0); try done.
  by destruct (sort_all_caveats props).
Qed.

Lemma finalizePermissionsRequest_true (req req1 : JsonRpcRequest)
    (res res1 : JsonRpcResponse) :
  finalizePermissionsRequest req res = Normal (true, req1, res1) -> res1 = res.
Proof.
  unfold finalizePermissionsRequest.
  destruct (truthy (params req)); simpl; [| done].
  destruct (typeof_object (js_index (params req) 0)); simpl; [| done].
  destruct (isArray (js_index (params req) 0)); simpl; [done |].
  destruct (object_keys (js_index (params req) 0)) as [keys|e]; simpl; [| done].
  destruct (Nat.eqb (length keys) 0); [done |].
  destruct (js_index (params req) 0); try by intros [= _ <-].
  destruct (sort_all_caveats props); simpl; [by intros [= _ <-] | done].
Qed.

Lemma getFinalizedRequestMetadata_frame (st st1 : CapabilitiesState)
    (metadata metadata1 : IOriginMetadata) (req req1 : JsonRpcRequest) :
  getFinalizedRequestMetadata uuid st metadata req = Normal (metadata1, req1, st1) ->
  domains st1 = domains st
  /\ permissionsRequests st1 = permissionsRequests st
  /\ origin metadata1 = origin metadata
  /\ (truthy (meta_id metadata) = true -> meta_id metadata1 = meta_id metadata).
Proof.
  unfold getFinalizedRequestMetadata.
  assert (Hmerge : forall m r,
             (if bool_decide (get_prop (params req) "length" = JNum 2)
              then extra ← js_member (js_index (params req) 1) "metadata";
                   if truthy extra
                   then '(popped, ps) ← js_pop (params req);
                        Normal (merge_metadata (get_prop popped "metadata") metadata,
                                {| req_method := req_method req; params := ps |})
                   else Normal (metadata, req)
              else Normal (metadata, req)) = Normal (m, r) ->
             origin m = origin metadata
             /\ (truthy (meta_id metadata) = true -> meta_id m = meta_id metadata)).
  { intros m r. destruct (bool_decide _); [| by intros [= <- _]].
    destruct (js_member _ _) as [extra|e]; simpl; [| done].
    destruct (truthy extra); [| by intros [= <- _]].
    destruct (js_pop (params req)) as [[popped ps]|e]; simpl; [| done].
    intros [= <- _]. split; [done |]. unfold merge_metadata. simpl.
    by destruct (meta_id metadata). }
  destruct (if bool_decide _ then _ else _) as [[m r]|e]; simpl; [| done].
  destruct (Hmerge m r eq_refl) as [Ho Hid].
  destruct (truthy (meta_id m)) eqn:Hm; simpl; intros [= <- _ <-]; [done |].
  simpl. repeat split; [done |]. intros Ht. rewrite (Hid Ht) in Hm. congruence.
Qed.

Lemma getPermissionsForDomain_domains (st st1 : CapabilitiesState) (d : string) :
  domains st1 = domains st -> getPermissionsForDomain st1 d = getPermissionsForDomain st d.
Proof. unfold getPermissionsForDomain. by intros ->. Qed.

Lemma hasPermissions_domains (st st1 : CapabilitiesState) (d : string)
    (requests : IRequestedPermissions) :
  domains st1 = domains st -> hasPermissions st1 d requests = hasPermissions st d requests.
Proof.
  intros H. unfold hasPermissions. by rewrite (getPermissionsForDomain_domains st st1 d H).
Qed.

Lemma getPermissionsForDomain_js_domains (st st1 : CapabilitiesState) (d : string) :
  domains st1 = domains st ->
  getPermissionsForDomain_js st1 d = getPermissionsForDomain_js st d.
Proof. unfold getPermissionsForDomain_js. by intros ->. Qed.

Lemma hasPermissions_js_domains (st st1 : CapabilitiesState) (d : string)
    (requests : IRequestedPermissions) :
  domains st1 = domains st ->
  hasPermissions_js st1 d requests = hasPermissions_js st d requests.
Proof.
  intros H. unfold hasPermissions_js.
  by rewrite (getPermissionsForDomain_js_domains st st1 d H), (hasPermissions_domains st st1 d _ H).
Qed.

Lemma hasPermissions_js_Normal (st : CapabilitiesState) (d : string)
    (requests : IRequestedPermissions) (b : bool) :
  hasPermissions_js st d requests = Normal b ->
  hasPermissions st d requests = b
  /\ getPermissionsForDomain_js st d = Some (getPermissionsForDomain st d).
Proof.
  unfold hasPermissions_js.
  destruct (getPermissionsForDomain_js st d) as [l|] eqn:Hl; [| done].
  apply getPermissionsForDomain_js_Some in Hl. subst l. by intros [= <-].
Qed.

Lemma assoc_assoc_set {A : Type} (k : string) (v : A) (ps : list (string * A)) :
  assoc k (assoc_set k v ps) = Some v.
Proof.
  induction ps as [|[k' v'] rest IH]; simpl.
  - by rewrite String.eqb_refl.
  - destruct (String.eqb k' k) eqn:Hk; simpl; [by rewrite String.eqb_refl | by rewrite Hk].
Qed.

Lemma insert_by_Forall {A : Type} (key : A -> string * string) (P : A -> Prop)
    (x : A) (l : list A) :
  P x -> Forall P l -> Forall P (insert_by key x l).
Proof.
  intros Hx. induction 1 as [|y rest Hy Hrest IH]; simpl.
  - by constructor.
  - destruct (key_leb (key x) (key y)); by repeat constructor.
Qed.

Lemma sort_by_Forall {A : Type} (key : A -> string * string) (P : A -> Prop) (l : list A) :
  Forall P l -> Forall P (sort_by key l).
Proof.
  unfold sort_by. induction 1 as [|x rest Hx Hrest IH]; simpl; [done |].
  by apply insert_by_Forall.
Qed.

(** Sorting the caveats of a descriptor leaves it within the types. *)
Lemma with_sorted_caveats_typed (d : JsValue) :
  is_Some (descriptor_of_js d) ->
  is_Some (descriptor_of_js (with_sorted_caveats d (get_prop d "caveats"))).
Proof.
  unfold with_sorted_caveats.
  destruct d as [| |b|n|s|xs|dps]; try done.
  destruct (get_prop (JObj dps) "caveats") as [| |b|n|s|cs|ps] eqn:Hc; try done.
  unfold descriptor_of_js. rewrite Hc.
  unfold get_prop. rewrite assoc_assoc_set. simpl.
  rewrite !fmap_is_Some, !mapM_is_Some. apply sort_by_Forall.
Qed.

Lemma asRequestedPermissions_is_Some (ps : list (string * JsValue)) :
  is_Some (asRequestedPermissions (JObj ps))
  <-> Forall (fun kv => is_Some (descriptor_of_js kv.2)) ps.
Proof.
  unfold asRequestedPermissions. split.
  - intros H. apply mapM_is_Some_1 in H. eapply Forall_impl; [exact H |].
    intros [k d]. simpl. by rewrite fmap_is_Some.
  - intros H. apply mapM_is_Some_2. eapply Forall_impl; [exact H |].
    intros [k d]. simpl. by rewrite fmap_is_Some.
Qed.

Lemma sort_all_caveats_typed (ps sorted : list (string * JsValue)) :
  sort_all_caveats ps = Normal sorted ->
  is_Some (asRequestedPermissions (JObj ps)) ->
  is_Some (asRequestedPermissions (JObj sorted)).
Proof.
  rewrite !asRequestedPermissions_is_Some.
  revert sorted. induction ps as [|[k d] ps IH]; intros sorted; simpl.
  - by intros [= <-].
  - destruct (js_member d "caveats") as [c|e] eqn:Hc; simpl; [| done].
    destruct (sort_all_caveats ps) as [rest|e]; simpl; [| done].
    intros [= <-] Hall. apply Forall_cons in Hall as [Hd Hps].
    apply Forall_cons. split; [| by apply IH]. simpl in *.
    assert (c = get_prop d "caveats") as ->.
    { unfold js_member in Hc. destruct d; first [discriminate Hc | by injection Hc]. }
    by apply with_sorted_caveats_typed.
Qed.

Lemma finalizePermissionsRequest_typed (req req1 : JsonRpcRequest)
    (res res1 : JsonRpcResponse) :
  finalizePermissionsRequest req res = Normal (true, req1, res1) ->
  is_Some (asRequestedPermissions (js_index (params req) 0)) ->
  is_Some (asRequestedPermissions (js_index (params req1) 0)).
Proof.
  unfold finalizePermissionsRequest.
  destruct (truthy (params req)); simpl; [| done].
  destruct (js_index (params req) 0) as [| |b|n|s|xs|ps] eqn:Hfirst; try done.
  simpl. destruct (Nat.eqb (length ps.*1) 0); [done |].
  destruct (sort_all_caveats ps) as [sorted|e] eqn:Hsort; simpl; [| done].
  intros [= <- _] Htyped. simpl.
  assert (Hset : js_index (set_first (params req) (JObj sorted)) 0 = JObj sorted).
  { destruct (params req) as [| |b|n|s|[|x xs]|fields]; try done.
    - simpl in Hfirst. by destruct (String.get 0 s).
    - unfold set_first, js_index. change (pretty 0) with "0".
      by rewrite assoc_assoc_set. }
  rewrite Hset. by apply (sort_all_caveats_typed ps).
Qed.

Lemma getFinalizedRequestMetadata_first (st st1 : CapabilitiesState)
    (metadata metadata1 : IOriginMetadata) (req req1 : JsonRpcRequest) :
  getFinalizedRequestMetadata uuid st metadata req = Normal (metadata1, req1, st1) ->
  js_index (params req1) 0 = js_index (params req) 0.
Proof.
  unfold getFinalizedRequestMetadata.
  assert (Hmerge : forall m r,
             (if bool_decide (get_prop (params req) "length" = JNum 2)
              then extra ← js_member (js_index (params req) 1) "metadata";
                   if truthy extra
                   then '(popped, ps) ← js_pop (params req);
                        Normal (merge_metadata (get_prop popped "metadata") metadata,
                                {| req_method := req_method req; params := ps |})
                   else Normal (metadata, req)
              else Normal (metadata, req)) = Normal (m, r) ->
             js_index (params r) 0 = js_index (params req) 0).
  { intros m r. destruct (bool_decide _) eqn:Hlen; [| by intros [= _ <-]].
    apply bool_decide_eq_true in Hlen.
    destruct (js_member _ _) as [extra|e]; simpl; [| done].
    destruct (truthy extra); [| by intros [= _ <-]].
    destruct (params req) as [| |b|n|s|xs|fields]; try done. simpl.
    intros [= _ <-]. simpl. simpl in Hlen.
    destruct xs as [|a [|b [|c xs]]]; simpl in Hlen; try done;
      injection Hlen as Hlen; lia. }
  destruct (if bool_decide _ then _ else _) as [[m r]|e]; simpl; [| done].
  specialize (Hmerge m r eq_refl).
  by destruct (truthy (meta_id m)); simpl; intros [= _ <- _].
Qed.

(** A payload within the declared types is followed to the end. *)
Lemma typed_payload_is_followed (st : CapabilitiesState) (metadata : IOriginMetadata)
    (req : JsonRpcRequest) (res : JsonRpcResponse) :
  is_Some (asRequestedPermissions (js_index (params req) 0)) ->
  control (requestPermissionsMiddleware uuid st metadata req res) <> OutsideTypes.
Proof.
  intros Htyped. unfold requestPermissionsMiddleware.
  destruct (finalizePermissionsRequest req res) as [[[ok req1] res1]|e] eqn:Hfin; [| done].
  destruct ok; [| simpl; by destruct (error res1)].
  apply finalizePermissionsRequest_typed in Hfin; [| done].
  destruct (getFinalizedRequestMetadata uuid st metadata req1)
    as [[[metadata1 req2] st1]|e] eqn:Hmeta; [| done].
  apply getFinalizedRequestMetadata_first in Hmeta. rewrite Hmeta.
  destruct Hfin as [perms ->].
  by destruct (hasPermissions_js st1 (origin metadata1) perms) as [[|]|e].
Qed.

(** X11: for a request whose payload is within the declared types (the
    caveats of each descriptor absent, or an array of [{type, value}] with a
    string [type]), the synchronous part of [requestPermissionsMiddleware]
    ends in one of four ways, leaves the registry as it was and never calls
    [next]. It either appends exactly the pending request to the queue and
    leaves the response alone, or answers the current permissions of the
    caller, or answers [invalidReq(req)] from the unchanged state, or throws;
    in the last three cases the queue is as it was. Nothing is stated for
    payloads outside the types. *)
Theorem requestPermissionsMiddleware_outcomes (st : CapabilitiesState)
    (metadata : IOriginMetadata) (req : JsonRpcRequest) (res : JsonRpcResponse) :
  (is_Some (asRequestedPermissions (js_index (params req) 0)) ->
   control (requestPermissionsMiddleware uuid st metadata req res) <> OutsideTypes)
  /\
  match control (requestPermissionsMiddleware uuid st metadata req res) with
  | AwaitApproval pending =>
      domains (state_after (requestPermissionsMiddleware uuid st metadata req res))
      = domains st
      /\ permissionsRequests (state_after (requestPermissionsMiddleware uuid st metadata req res))
         = (permissionsRequests st ++ [pending])%list
      /\ res_after (requestPermissionsMiddleware uuid st metadata req res) = res
  | CallEnd None =>
      domains (state_after (requestPermissionsMiddleware uuid st metadata req res))
      = domains st
      /\ permissionsRequests (state_after (requestPermissionsMiddleware uuid st metadata req res))
         = permissionsRequests st
      /\ res_after (requestPermissionsMiddleware uuid st metadata req res)
         = set_result res (getPermissionsForDomain st (origin metadata))
  | CallEnd (Some e) =>
      e = invalidReq (Some req)
      /\ requestPermissionsMiddleware uuid st metadata req res
         = {| state_after := st; res_after := set_error res e; control := CallEnd (Some e) |}
  | Throws _ =>
      domains (state_after (requestPermissionsMiddleware uuid st metadata req res))
      = domains st
      /\ permissionsRequests (state_after (requestPermissionsMiddleware uuid st metadata req res))
         = permissionsRequests st
      /\ res_after (requestPermissionsMiddleware uuid st metadata req res) = res
  | OutsideTypes => True
  | CallNext | RunRestricted _ _ _ => False
  end.
Proof.
  split; [apply typed_payload_is_followed |].
  unfold requestPermissionsMiddleware.
  destruct (finalizePermissionsRequest req res) as [[[ok req1] res1]|e] eqn:Hfin; [| done].
  destruct ok.
  2:{ apply finalizePermissionsRequest_false in Hfin as [-> ->]. done. }
  apply finalizePermissionsRequest_true in Hfin as ->.
  destruct (getFinalizedRequestMetadata uuid st metadata req1)
    as [[[metadata1 req2] st1]|e] eqn:Hmeta; [| done].
  apply getFinalizedRequestMetadata_frame in Hmeta as (Hd & Hq & Ho & _).
  destruct (asRequestedPermissions (js_index (params req2) 0)) as [perms|]; [| done].
  destruct (hasPermissions_js st1 (origin metadata1) perms) as [[|]|e] eqn:Hhas; simpl.
  - apply hasPermissions_js_Normal in Hhas as [_ ->].
    split; [done |]. split; [done |].
    by rewrite (getPermissionsForDomain_domains st st1 _ Hd), Ho.
  - split; [done |]. split; [| done]. unfold getPermissionsRequests. by rewrite Hq.
  - done.
Qed.

(** X12: the request put before the user names the calling origin, whatever
    metadata the request parameters carry; an id the caller already has is
    kept; the request asks for at least one method, and for permissions the
    origin does not have yet. *)
Theorem pending_request_names_the_caller (st : CapabilitiesState)
    (metadata : IOriginMetadata) (req : JsonRpcRequest) (res : JsonRpcResponse)
    (pending : IPermissionsRequest)
    (Hprompt : control (requestPermissionsMiddleware uuid st metadata req res)
               = AwaitApproval pending) :
  pr_origin pending = origin metadata
  /\ origin (pr_metadata pending) = origin metadata
  /\ (truthy (meta_id metadata) = true -> meta_id (pr_metadata pending) = meta_id metadata)
  /\ pr_permissions pending <> []
  /\ hasPermissions st (origin metadata) (pr_permissions pending) = false.
Proof.
  unfold requestPermissionsMiddleware in Hprompt.
  destruct (finalizePermissionsRequest req res) as [[[ok req1] res1]|e] eqn:Hfin; [| done].
  destruct ok; [| done].
  destruct (getFinalizedRequestMetadata uuid st metadata req1)
    as [[[metadata1 req2] st1]|e] eqn:Hmeta; [| done].
  apply getFinalizedRequestMetadata_frame in Hmeta as (Hd & Hq & Ho & Hid).
  destruct (asRequestedPermissions (js_index (params req2) 0)) as [perms|] eqn:Hperms;
    [| done].
  destruct (hasPermissions_js st1 (origin metadata1) perms) as [[|]|e] eqn:Hhas;
    [done | | done].
  apply hasPermissions_js_Normal in Hhas as [Hhas _].
  simpl in Hprompt. injection Hprompt as <-. simpl.
  repeat split; try done.
  - intros ->. by vm_compute in Hhas.
  - by rewrite <- Ho, <- (hasPermissions_domains st st1 _ _ Hd).
Qed.

Lemma grantNewPermissions_requests (st : CapabilitiesState) (domain : string)
    (approved : IRequestedPermissions) (res : JsonRpcResponse) :
  permissionsRequests
    (state_after (grantNewPermissions restrictedMethods uuid now st domain approved res))
  = permissionsRequests st.
Proof.
  unfold grantNewPermissions. destruct (existsb _ approved); [done |].
  pose proof (build_permissions_state uuid now domain approved [] st) as Hst.
  destruct (build_permissions uuid now domain approved [] st) as [perms st1].
  simpl in *. subst st1. by rewrite addPermissionsFor_requests.
Qed.

(** X13: when an approval settles on a request whose id is a primitive value
    (a string, as [uuid()] makes it, or a number or boolean the caller gave),
    the queue loses the requests that carry that id and keeps all others
    in their order, whichever way the approval settled. *)
Theorem approval_settled_queue (later : CapabilitiesState) (pending : IPermissionsRequest)
    (res : JsonRpcResponse) (a : Approval)
    (Hid : truthy (meta_id (pr_metadata pending)) = true)
    (Hprim : is_primitive (meta_id (pr_metadata pending)) = true) :
  permissionsRequests
    (state_after (approval_settled restrictedMethods uuid now later pending res a))
  = filter (fun r => meta_id (pr_metadata r) <> meta_id (pr_metadata pending))
           (permissionsRequests later).
Proof.
  clear Hprim.
  unfold approval_settled, approval_finally. simpl. rewrite Hid.
  unfold removePermissionsRequest, setPermissionsRequests, getPermissionsRequests. simpl.
  f_equal. unfold approval_handlers. destruct a as [approved|reason]; [| done].
  destruct (Nat.eqb (length approved.*1) 0); [done |]. rewrite Hid. simpl.
  apply grantNewPermissions_requests.
Qed.

(** X14: a rejected approval ends with the rejection reason as the error, an
    empty approval with [USER_REJECTED_ERROR], an approval naming an unknown
    method with [METHOD_NOT_FOUND]; none of them changes the registry. *)
Theorem approval_without_grant (later : CapabilitiesState) (pending : IPermissionsRequest)
    (res : JsonRpcResponse) :
  (forall reason,
      let eff := approval_settled restrictedMethods uuid now later pending res (Rejected reason) in
      res_after eff = set_error res (Rejection reason)
      /\ control eff = CallEnd (Some (Rejection reason))
      /\ domains (state_after eff) = domains later)
  /\ (let eff := approval_settled restrictedMethods uuid now later pending res (Resolved []) in
      res_after eff = set_error res USER_REJECTED_ERROR
      /\ control eff = CallEnd (Some USER_REJECTED_ERROR)
      /\ domains (state_after eff) = domains later)
  /\ (forall approved m,
      let eff := approval_settled restrictedMethods uuid now later pending res (Resolved approved) in
      truthy (meta_id (pr_metadata pending)) = true ->
      m ∈ approved.*1 -> getMethodKeyFor restrictedMethods m = "" ->
      res_after eff = set_error res METHOD_NOT_FOUND
      /\ control eff = CallEnd (Some METHOD_NOT_FOUND)
      /\ domains (state_after eff) = domains later).
Proof.
  assert (Hfin : forall s, domains (approval_finally s pending) = domains s).
  { intros s. unfold approval_finally. by destruct (truthy _). }
  split; [| split].
  - intros reason eff. subst eff. unfold approval_settled.
    cbn [state_after res_after control]. by rewrite Hfin.
  - intros eff. subst eff. unfold approval_settled.
    cbn [state_after res_after control]. by rewrite Hfin.
  - intros approved m eff Hid Hm Hkey. subst eff. unfold approval_settled.
    cbn [state_after res_after control]. rewrite Hfin.
    unfold approval_handlers. rewrite Hid.
    destruct approved as [|x rest] eqn:Ha; [by apply elem_of_nil in Hm |]. rewrite <- Ha in *.
    assert (Hlen : Nat.eqb (length approved.*1) 0 = false) by (by rewrite Ha).
    rewrite Hlen. simpl. unfold grantNewPermissions.
    assert (Hex : existsb (fun '(methodName, _) =>
                    String.eqb (getMethodKeyFor restrictedMethods methodName) "") approved = true).
    { apply list_elem_of_fmap in Hm as ([m' r] & -> & Hin). apply existsb_exists.
      exists (m', r). split; [by apply list_elem_of_In | by apply String.eqb_eq]. }
    by rewrite Hex.
Qed.

End MoreWorkflow.

(** ** Dispatch and validation *)

Section MoreRouting.

Variable safeMethods : list string.
Variable restrictedMethods : gmap string RestrictedMethod.
Variable methodPrefix : string.
Variable uuid : nat -> string.

Lemma push_caveats_normal (cs : list IOcapLdCaveat) (pipeline : list ICaveatFunction) :
  push_caveats cs = Normal pipeline ->
  made_from <$> pipeline = cs
  /\ Forall (fun f => caveatFnGens (caveat_type (made_from f)) = Some (made_by f)) pipeline.
Proof.
  revert pipeline. induction cs as [|c cs IH]; intros pipeline; simpl.
  - by intros [= <-].
  - destruct (caveatFnGens (caveat_type c)) as [g|] eqn:Hg; [| done].
    destruct (push_caveats cs) as [fns|e]; simpl; [| done].
    intros [= <-]. destruct (IH fns eq_refl) as [Hcs Hall]. split.
    + rewrite fmap_cons. simpl. by rewrite Hcs.
    + by constructor.
Qed.

Lemma caveatFnGens_Some (type : string) (g : ICaveatFunctionGenerator) :
  caveatFnGens type = Some g ->
  type = match g with
         | filterParams => "filterParams"
         | filterResponse => "filterResponse"
         | ObjectConstructor => "constructor"
         | ObjectToString => "toString"
         end.
Proof.
  unfold caveatFnGens.
  destruct (String.eqb_spec type "filterParams"); [by intros [= <-] |].
  destruct (String.eqb_spec type "filterResponse"); [by intros [= <-] |].
  destruct (String.eqb_spec type "constructor"); [by intros [= <-] |].
  destruct (String.eqb_spec type "toString"); [by intros [= <-] | done].
Qed.

(** X15: whenever [executeMethod] hands the call on, the target is the method
    registered under the resolved key, and the pipeline holds one stage per
    caveat of the capability, in stored order; each stage is what the value
    found in the caveat table under the type of its caveat returned: for the
    types [filterParams] and [filterResponse] the middleware of the
    registered generator, for the types [constructor] and [toString] what
    the member of [Object.prototype] of that name returned, which no
    generator made. No other caveat type occurs; state and response are as
    they were. *)
Theorem executeMethod_hands_off (st : CapabilitiesState) (domain : IOriginMetadata)
    (req : JsonRpcRequest) (res : JsonRpcResponse)
    (pipeline : list ICaveatFunction) (key : string) (target : JsFunction)
    (Hrun : control (executeMethod restrictedMethods st domain req res)
            = RunRestricted pipeline key target) :
  key = getMethodKeyFor restrictedMethods (req_method req)
  /\ key <> ""
  /\ restrictedMethods !! key ≫= rm_method = Some target
  /\ made_from <$> pipeline
     = default [] (getPermission st (origin domain) (req_method req) ≫= caveats)
  /\ Forall (fun f => caveatFnGens (caveat_type (made_from f)) = Some (made_by f)) pipeline
  /\ Forall (fun f => caveat_type (made_from f)
                      = match made_by f with
                        | filterParams => "filterParams"
                        | filterResponse => "filterResponse"
                        | ObjectConstructor => "constructor"
                        | ObjectToString => "toString"
                        end) pipeline
  /\ state_after (executeMethod restrictedMethods st domain req res) = st
  /\ res_after (executeMethod restrictedMethods st domain req res) = res.
Proof.
  unfold executeMethod in *.
  destruct (getPermission_js st (origin domain) (req_method req)) as [permission|e] eqn:Hp;
    [| done].
  apply getPermission_js_Normal in Hp. subst permission.
  destruct (String.eqb_spec (getMethodKeyFor restrictedMethods (req_method req)) "")
    as [|Hkey]; [done |].
  destruct (restrictedMethods !! getMethodKeyFor restrictedMethods (req_method req)
              ≫= rm_method) as [f|] eqn:Hf; [| done].
  destruct (getPermission st (origin domain) (req_method req) ≫= caveats)
    as [[|c cs]|] eqn:Hcs.
  - simpl in Hrun. injection Hrun as <- <- <-. done.
  - destruct (push_caveats (c :: cs)) as [fns|e] eqn:Hpush; [| done].
    simpl in Hrun. injection Hrun as <- <- <-.
    apply push_caveats_normal in Hpush as [Hfrom Hall].
    repeat split; try done.
    eapply Forall_impl; [exact Hall |]. intros x Hx. by apply caveatFnGens_Some.
  - simpl in Hrun. injection Hrun as <- <- <-. done.
Qed.

(** X16: a method that resolves to no key, or to an entry whose method is not
    callable, is answered [unauthorized] to an origin that holds no
    capability of that name, and [METHOD_NOT_FOUND] only to an origin that
    holds one: the permission is looked up before the method is. Where the
    lookup of the permission throws, the answer is the error made from the
    message of what was thrown. *)
Theorem unknown_method_answer (st : CapabilitiesState) (domain : IOriginMetadata)
    (req : JsonRpcRequest) (res : JsonRpcResponse)
    (Hsafe : req_method req ∉ safeMethods)
    (Hget : req_method req <> methodPrefix +:+ "getPermissions")
    (Hreq : req_method req <> methodPrefix +:+ "requestPermissions")
    (Hunknown : getMethodKeyFor restrictedMethods (req_method req) = ""
                \/ restrictedMethods !! getMethodKeyFor restrictedMethods (req_method req)
                     ≫= rm_method = None) :
  providerMiddlewareFunction safeMethods restrictedMethods methodPrefix uuid st domain req res =
    match getPermission_js st (origin domain) (req_method req) with
    | Abrupt (TypeError message) =>
        {| state_after := st;
           res_after := set_error res (GenericError message);
           control := CallEnd (Some (GenericError message)) |}
    | Normal None => {| state_after := st;
                        res_after := set_error res (unauthorized req);
                        control := CallEnd (Some (unauthorized req)) |}
    | Normal (Some _) => {| state_after := st;
                            res_after := set_error res METHOD_NOT_FOUND;
                            control := CallEnd (Some METHOD_NOT_FOUND) |}
    end.
Proof.
  rewrite provider_restricted_path by done.
  destruct (getPermission_js st (origin domain) (req_method req)) as [[c|]|e] eqn:Hp;
    [| done | done].
  unfold executeMethod. rewrite Hp.
  destruct (String.eqb_spec (getMethodKeyFor restrictedMethods (req_method req)) "")
    as [|Hkey]; [done |].
  destruct Hunknown as [? | ->]; done.
Qed.

End MoreRouting.





(** ** Further scenarios *)

Lemma hasPermissions_checks_last_capability_witness :
  NoDup swapped_request.*1
  /\ ("__proto__" ∉ parentCapability <$> getPermissionsForDomain
                                           (holds_with [caveat_A; caveat_B]) "o1")
  /\ hasPermissions_js (holds_with [caveat_A; caveat_B]) "o1" swapped_request = Normal true.
Proof.
  assert (Hkeys : NoDup swapped_request.*1) by apply NoDup_singleton.
  assert (Hproto : "__proto__" ∉ parentCapability <$> getPermissionsForDomain
                                   (holds_with [caveat_A; caveat_B]) "o1").
  { intros Hin. vm_compute in Hin. apply list_elem_of_singleton in Hin. discriminate Hin. }
  split; [exact Hkeys |]. split; [exact Hproto |].
  apply (hasPermissions_checks_last_capability
           (holds_with [caveat_A; caveat_B]) "o1" swapped_request Hkeys Hproto).
  split; [by vm_compute |].
  intros m r Hin. apply list_elem_of_singleton in Hin. injection Hin as -> ->.
  left. eexists. split; by vm_compute.
Defined.

Lemma caveats_pass_without_repeats_witness :
  NoDup [caveat_B; caveat_A] /\ Permutation [caveat_B; caveat_A] [caveat_A; caveat_B].
Proof.
  assert (Hnd : NoDup [caveat_B; caveat_A]).
  { apply NoDup_cons. split; [| apply NoDup_singleton].
    intros Hin. apply list_elem_of_singleton in Hin. discriminate Hin. }
  split; [exact Hnd |].
  apply (caveats_pass_without_repeats [caveat_B; caveat_A] [caveat_A; caveat_B] Hnd).
  by vm_compute.
Defined.

Lemma contacts_grant_known (k : string) :
  k ∈ contacts_grant.*1 -> getMethodKeyFor contacts_methods k <> "".
Proof. intros Hk. apply list_elem_of_singleton in Hk. subst k. by vm_compute. Qed.


Lemma getPermission_after_grant_witness :
  NoDup contacts_grant.*1
  /\ getPermission
       (state_after (grantNewPermissions contacts_methods uuid0 now0 fresh_state "o1"
                       contacts_grant res0)) "o1" "readContacts"
     = Some (Capability uuid0 now0 1 "readContacts" None "o1").
Proof.
  assert (Hkeys : NoDup contacts_grant.*1) by apply NoDup_singleton.
  split; [exact Hkeys |].
  exact (getPermission_after_grant contacts_methods uuid0 now0 fresh_state "o1"
           contacts_grant res0 0 "readContacts" no_caveats Hkeys contacts_grant_known eq_refl).
Defined.


Lemma unique_methods_preserved_witness :
  unique_methods holds_key "o1"
  /\ unique_methods
       (state_after (grantNewPermissions plugin_methods uuid0 now0 holds_key "o1"
                       [("plugin_", no_caveats)] res0)) "o1".
Proof.
  assert (Huniq : unique_methods holds_key "o1").
  { unfold unique_methods.
    replace (parentCapability <$> getPermissionsForDomain holds_key "o1")
      with ["plugin_"] by (by vm_compute).
    apply NoDup_singleton. }
  split; [exact Huniq |].
  destruct (unique_methods_preserved plugin_methods uuid0 now0 holds_key "o1" Huniq)
    as [Hgrant _].
  apply Hgrant. apply NoDup_singleton.
Defined.


Lemma pending_request_names_the_caller_witness :
  control (requestPermissionsMiddleware uuid0 fresh_state o1 spoofing_request res0)
  = AwaitApproval pending_spoof
  /\ pr_origin pending_spoof = origin o1.
Proof.
  assert (Hprompt : control (requestPermissionsMiddleware uuid0 fresh_state o1
                               spoofing_request res0) = AwaitApproval pending_spoof)
    by (by vm_compute).
  split; [exact Hprompt |].
  destruct (pending_request_names_the_caller uuid0 fresh_state o1 spoofing_request res0
              pending_spoof Hprompt) as [Horigin _].
  exact Horigin.
Defined.

Lemma approval_settled_queue_witness :
  truthy (meta_id (pr_metadata pending0)) = true
  /\ is_primitive (meta_id (pr_metadata pending0)) = true
  /\ permissionsRequests
       (state_after (approval_settled contacts_methods uuid0 now0 two_pending pending0 res0
                       (Resolved contacts_grant)))
     = [pending_spoof].
Proof.
  split; [done |]. split; [done |].
  rewrite (approval_settled_queue contacts_methods uuid0 now0 two_pending pending0 res0
             (Resolved contacts_grant) eq_refl eq_refl).
  by vm_compute.
Defined.

Lemma executeMethod_hands_off_witness :
  control (executeMethod account_methods (holds_with [caveat_A; caveat_B]) o1
             read_accounts res0)
  = RunRestricted [ {| made_by := filterParams; made_from := caveat_A |};
                    {| made_by := filterResponse; made_from := caveat_B |} ]
      "readAccounts" (Fn 1)
  /\ account_methods !! "readAccounts" ≫= rm_method = Some (Fn 1).
Proof.
  assert (Hrun : control (executeMethod account_methods (holds_with [caveat_A; caveat_B]) o1
                            read_accounts res0)
                 = RunRestricted [ {| made_by := filterParams; made_from := caveat_A |};
                                   {| made_by := filterResponse; made_from := caveat_B |} ]
                     "readAccounts" (Fn 1)) by (by vm_compute).
  split; [exact Hrun |].
  destruct (executeMethod_hands_off account_methods (holds_with [caveat_A; caveat_B]) o1
              read_accounts res0 _ _ _ Hrun) as (_ & _ & Htarget & _).
  exact Htarget.
Defined.

Lemma unknown_method_answer_witness :
  getMethodKeyFor account_methods "plugin_" = ""
  /\ providerMiddlewareFunction [] account_methods "" uuid0 holds_key o1
       {| req_method := "plugin_"; params := JArr [] |} res0
     = {| state_after := holds_key;
          res_after := set_error res0 METHOD_NOT_FOUND;
          control := CallEnd (Some METHOD_NOT_FOUND) |}.
Proof.
  assert (Hkey : getMethodKeyFor account_methods "plugin_" = "") by (by vm_compute).
  split; [exact Hkey |].
  rewrite (unknown_method_answer [] account_methods "" uuid0 holds_key o1
             {| req_method := "plugin_"; params := JArr [] |} res0);
    [by vm_compute | apply not_elem_of_nil | done | done | by left].
Defined.
